(** * QNEET: offline asset cache controller (sw.js) and local persistence
      store (js/storage.js)

    The service worker and the storage class are embedded shallowly.  A
    promise is a computation over the state it acts on that settles either
    fulfilled or rejected; [.then], [.catch], [Promise.all] and [for ... of]
    with [await] are the combinators below.  The browser interfaces the code
    calls (CacheStorage, Cache, fetch, IndexedDB object stores) are modelled
    by their documented behaviour on a small state:

    - a cache generation maps a request URL to a response snapshot, and the
      cache storage lists the generations in creation order;
    - the network is a function from method and URL to an optional response
      ([None] is a failed fetch, which rejects with a TypeError);
    - an object store maps a key to the rest of the row; a call on it
      returns a request, which is not a promise, so that [await] hands the
      request back; the requests of a transaction are carried out
      afterwards, in order ([add] fails on an existing key, [put] upserts,
      [getAll] lists in ascending key order), and a failed request aborts
      its transaction, whose writes are undone. *)

From stdpp Require Import gmap strings list sorting.

Set Warnings "-register-all".

(** ** Promises *)

Inductive Exn : Type :=
  | TypeError
  | SyntaxError
  | ConstraintError
  | InvalidStateError.

Inductive Settled (A : Type) : Type :=
  | Fulfilled (a : A)
  | Rejected (e : Exn).

Arguments Fulfilled {A} a.
Arguments Rejected {A} e.

Definition Promise (S A : Type) : Type := S → S * Settled A.

Section PromiseOps.
Context {S : Type}.

Definition resolve {A} (a : A) : Promise S A := λ s, (s, Fulfilled a).

Definition reject {A} (e : Exn) : Promise S A := λ s, (s, Rejected e).

(** [p.then(f)] *)
Definition then_ {A B} (p : Promise S A) (f : A → Promise S B) : Promise S B :=
  λ s, match p s with
       | (s', Fulfilled a) => f a s'
       | (s', Rejected e) => (s', Rejected e)
       end.

(** [p.catch(h)] *)
Definition catch_ {A} (p : Promise S A) (h : Exn → Promise S A) : Promise S A :=
  λ s, match p s with
       | (s', Fulfilled a) => (s', Fulfilled a)
       | (s', Rejected e) => h e s'
       end.

(** A promise that is started and neither returned nor awaited: its
    effects happen, its outcome is dropped. *)
Definition floating {A} (p : Promise S A) : Promise S unit :=
  λ s, (fst (p s), Fulfilled tt).

(** [Promise.all(ps)] *)
Fixpoint Promise_all {A} (ps : list (Promise S A)) : Promise S (list A) :=
  match ps with
  | [] => resolve []
  | p :: ps' => then_ p (λ a, then_ (Promise_all ps') (λ l, resolve (a :: l)))
  end.

(** [for (const x of l) { await body(x) }] *)
Fixpoint for_of {A} (l : list A) (body : A → Promise S unit) : Promise S unit :=
  match l with
  | [] => resolve tt
  | x :: l' => then_ (body x) (λ _, for_of l' body)
  end.
End PromiseOps.

Notation "'await' x := p 'in' q" := (then_ p (λ x, q))
  (at level 10, x name, p at level 100, q at level 200, only parsing).
Notation "'await_' p 'in' q" := (then_ p (λ _, q))
  (at level 10, p at level 100, q at level 200, only parsing).

(** [s.includes(t)] *)
Fixpoint includes (s t : string) : bool :=
  String.prefix t s ||
  match s with
  | EmptyString => false
  | String _ s' => includes s' t
  end.

(** ** The service worker *)

Module SW.

(** [Response.type]; [default_type] is the type ['default'] of a response
    built with [new Response]. *)
Inductive ResponseType : Type :=
  basic | cors | default_type | opaque | opaqueredirect | error.

#[global] Instance ResponseType_eq_dec : EqDecision ResponseType.
Proof. solve_decision. Defined.

Record Response : Type := mkResponse {
  status : N;
  type : ResponseType;
  body : string
}.

Record URL : Type := mkURL {
  origin : string;
  pathname : string
}.

Definition href (u : URL) : string := origin u +:+ pathname u.

Record Request : Type := mkRequest {
  method : string;
  url : URL;
  accept : option string
}.

(** JSON values as [PushMessageData.json()] returns them.  Of a number
    the listeners only use whether it is zero, so an integer stands for
    it. *)
Inductive Json : Type :=
  | JNull
  | JBool (b : bool)
  | JNum (n : Z)
  | JStr (s : string)
  | JArr (l : list Json)
  | JObj (fields : list (string * Json)).

(** The payload of a push event: text that parses as JSON, or text that
    does not (then [json()] throws a SyntaxError). *)
Inductive PushMessageData : Type :=
  | JsonPayload (v : Json)
  | TextPayload (text : string).

Record Notification : Type := mkNotification {
  ntitle : Json;
  nbody : Json;
  nicon : Json;
  nbadge : Json
}.

Record World : Type := mkWorld {
  location_origin : string;
  network : string → string → option Response;
  caches : list (string * gmap string Response);
  netlog : list string;
  skipWaitingRequested : bool;
  clientsClaimed : bool;
  shown : list Notification;
  posted : list string
}.

Definition set_caches (cs : list (string * gmap string Response)) (w : World) : World :=
  mkWorld (location_origin w) (network w) cs (netlog w)
          (skipWaitingRequested w) (clientsClaimed w) (shown w) (posted w).

Definition log_fetch (us : list string) (w : World) : World :=
  mkWorld (location_origin w) (network w) (caches w) (netlog w ++ us)
          (skipWaitingRequested w) (clientsClaimed w) (shown w) (posted w).

(** *** Constants of sw.js *)

Definition CACHE_VERSION : string := "qneet-v1.2.0".
Definition CACHE_NAME : string := "qneet-cache-" +:+ CACHE_VERSION.

Definition STATIC_ASSETS : list string :=
  [ "/"; "/index.html"; "/css/styles.css"; "/css/dark-theme.css";
    "/js/main.js"; "/js/pdf-viewer.js"; "/js/storage.js"; "/js/utils.js";
    "/data/resources.json"; "/data/categories.json"; "/manifest.json";
    "/assets/icons/icon-192.png"; "/assets/icons/icon-512.png" ].

Definition DYNAMIC_ASSETS : list string := [].

(** *** The platform: CacheStorage, Cache, fetch, lifecycle calls *)

Definition caches_has (cs : list (string * gmap string Response)) (name : string) : bool :=
  existsb (λ c, String.eqb (fst c) name) cs.

(** [caches.open(name)]: the generation is created when it is missing;
    the handle of a generation is its name. *)
Definition caches_open (name : string) : Promise World string :=
  λ w, if caches_has (caches w) name then (w, Fulfilled name)
       else (set_caches (caches w ++ [(name, ∅)]) w, Fulfilled name).

(** [caches.keys()] *)
Definition caches_keys : Promise World (list string) :=
  λ w, (w, Fulfilled (fst <$> caches w)).

(** [caches.delete(name)] *)
Definition caches_delete (name : string) : Promise World bool :=
  λ w, (set_caches (filter (λ c, fst c ≠ name) (caches w)) w,
        Fulfilled (caches_has (caches w) name)).

Fixpoint storage_match (cs : list (string * gmap string Response)) (key : string)
  : option Response :=
  match cs with
  | [] => None
  | (_, c) :: cs' =>
      match c !! key with
      | Some r => Some r
      | None => storage_match cs' key
      end
  end.

(** [caches.match(key)]: the first generation, in creation order, that
    holds the key answers. *)
Definition caches_match (key : string) : Promise World (option Response) :=
  λ w, (w, Fulfilled (storage_match (caches w) key)).

Definition storage_put (name key : string) (r : Response)
    (cs : list (string * gmap string Response)) : list (string * gmap string Response) :=
  (λ c, if String.eqb (fst c) name then (fst c, <[key := r]> (snd c)) else c) <$> cs.

(** [cache.put(request, response)] *)
Definition cache_put (cache key : string) (r : Response) : Promise World unit :=
  λ w, (set_caches (storage_put cache key r (caches w)) w, Fulfilled tt).

(** [fetch(request)] *)
Definition fetch (m u : string) : Promise World Response :=
  λ w, match network w m u with
       | Some r => (log_fetch [u] w, Fulfilled r)
       | None => (log_fetch [u] w, Rejected TypeError)
       end.

Definition ok_status (r : Response) : bool :=
  (200 <=? status r)%N && (status r <=? 299)%N && negb (status r =? 206)%N.

(** The responses of a batch of GET fetches, when every one of them
    arrives with an ok status. *)
Fixpoint fetch_batch (net : string → string → option Response) (us : list string)
  : option (list (string * Response)) :=
  match us with
  | [] => Some []
  | u :: us' =>
      match net "GET" u with
      | Some r =>
          if ok_status r
          then match fetch_batch net us' with
               | Some l => Some ((u, r) :: l)
               | None => None
               end
          else None
      | None => None
      end
  end.

(** [cache.addAll(paths)]: every path is fetched; the entries are written
    only when all the fetches succeeded, otherwise the promise rejects
    and the generation is left as it was. *)
Definition cache_addAll (cache : string) (paths : list string) : Promise World unit :=
  λ w, let us := (λ p, location_origin w +:+ p) <$> paths in
       match fetch_batch (network w) us with
       | Some l =>
           (log_fetch us
              (set_caches
                 (fold_left (λ cs e, storage_put cache (fst e) (snd e) cs) l (caches w)) w),
            Fulfilled tt)
       | None => (log_fetch us w, Rejected TypeError)
       end.

(** [self.skipWaiting()] *)
Definition skipWaiting : Promise World unit :=
  λ w, (mkWorld (location_origin w) (network w) (caches w) (netlog w)
                true (clientsClaimed w) (shown w) (posted w), Fulfilled tt).

(** [self.clients.claim()] *)
Definition clients_claim : Promise World unit :=
  λ w, (mkWorld (location_origin w) (network w) (caches w) (netlog w)
                (skipWaitingRequested w) true (shown w) (posted w), Fulfilled tt).

(** [self.registration.showNotification(title, options)] *)
Definition showNotification (n : Notification) : Promise World unit :=
  λ w, (mkWorld (location_origin w) (network w) (caches w) (netlog w)
                (skipWaitingRequested w) (clientsClaimed w) (shown w ++ [n]) (posted w),
        Fulfilled tt).

(** [event.source.postMessage({action})] *)
Definition postMessage (action : string) : Promise World unit :=
  λ w, (mkWorld (location_origin w) (network w) (caches w) (netlog w)
                (skipWaitingRequested w) (clientsClaimed w) (shown w) (posted w ++ [action]),
        Fulfilled tt).

(** *** Listeners *)

(** install: open the current generation, add the manifest, then skip
    waiting; a rejection anywhere in the chain is logged by the final
    [.catch], whose handler returns nothing. *)
Definition on_install : Promise World unit :=
  catch_
    (await_ (await cache := caches_open CACHE_NAME in
             cache_addAll cache STATIC_ASSETS) in
     skipWaiting)
    (λ error, resolve tt).

(** The deletions both the activate listener and the [cleanupCache]
    message listener hand to [Promise.all]: a generation is deleted when
    its name is not the current one. *)
Definition delete_stale (cacheNames : list string) : Promise World (list (option bool)) :=
  Promise_all
    ((λ cacheName,
        if decide (cacheName ≠ CACHE_NAME)
        then await deleted := caches_delete cacheName in resolve (Some deleted)
        else resolve None) <$> cacheNames).

(** activate: delete every generation whose name is not the current one,
    then claim the clients. *)
Definition on_activate : Promise World unit :=
  await_ (await cacheNames := caches_keys in delete_stale cacheNames) in
  clients_claim.

(** What a listener of a fetch event leaves behind: the promise handed
    to [event.respondWith], settled, when it was called; and the
    exception the listener threw, when it threw. *)
Record FetchOutcome : Type := mkFetchOutcome {
  responded : option (Settled (option Response));
  thrown : option Exn
}.

Definition passthrough : FetchOutcome := mkFetchOutcome None None.

(** The promise the first fetch listener hands to [respondWith]. *)
Definition cache_first (request : Request) : Promise World (option Response) :=
  await cachedResponse := caches_match (href (url request)) in
  match cachedResponse with
  | Some r => resolve (Some r)
  | None =>
      catch_
        (await networkResponse := fetch (method request) (href (url request)) in
         if (status networkResponse =? 200)%N
            && bool_decide (type networkResponse = basic)
         then
           await_ floating (await cache := caches_open CACHE_NAME in
                            cache_put cache (href (url request)) networkResponse) in
           resolve (Some networkResponse)
         else resolve (Some networkResponse))
        (λ error,
           match accept request with
           | None => reject TypeError
           | Some a =>
               if includes a "text/html"
               then λ w, caches_match (location_origin w +:+ "/index.html") w
               else resolve None
           end)
  end.

(** The first fetch listener, over the bypass list. *)
Definition on_fetch_with (bypass : list string) (request : Request)
  : World → World * FetchOutcome :=
  λ w,
    if negb (String.eqb (method request) "GET") then (w, passthrough)
    else if existsb (λ asset, includes (pathname (url request)) asset) bypass
    then (w, passthrough)
    else if String.eqb (origin (url request)) (location_origin w)
    then let '(w', r) := cache_first request w in
         (w', mkFetchOutcome (Some r) None)
    else (w, passthrough).

Definition on_fetch : Request → World → World * FetchOutcome :=
  on_fetch_with DYNAMIC_ASSETS.

Definition unavailable : Response :=
  mkResponse 503 default_type "External resource unavailable".

(** The second fetch listener.  Its argument [fetch(...).catch(...)] is
    evaluated before [respondWith] is entered, and [respondWith] throws
    an InvalidStateError when an earlier listener has already called
    it. *)
Definition on_fetch_external (request : Request) (before : FetchOutcome)
  : World → World * FetchOutcome :=
  λ w,
    if includes (href (url request)) "external-domain.com"
    then let '(w', r) :=
           catch_ (await r := fetch (method request) (href (url request)) in
                   resolve (Some r))
                  (λ _, resolve (Some unavailable)) w in
         match responded before with
         | Some _ => (w', mkFetchOutcome (responded before) (Some InvalidStateError))
         | None => (w', mkFetchOutcome (Some r) (thrown before))
         end
    else (w, before).

(** A fetch event goes through both listeners, in registration order. *)
Definition dispatch_fetch_with (bypass : list string) (request : Request)
  : World → World * FetchOutcome :=
  λ w, let '(w1, o1) := on_fetch_with bypass request w in
       on_fetch_external request o1 w1.

Definition dispatch_fetch : Request → World → World * FetchOutcome :=
  dispatch_fetch_with DYNAMIC_ASSETS.

(** [data.name] on a parsed payload: reading a property of [null] throws,
    a primitive or an array has none of the three properties. *)
Definition get_property (data : Json) (name : string) : Exn + option Json :=
  match data with
  | JNull => inl TypeError
  | JObj fields =>
      inr (fold_left (λ found f, if String.eqb (fst f) name then Some (snd f) else found)
                     fields None)
  | _ => inr None
  end.

Definition truthy (v : Json) : bool :=
  match v with
  | JNull => false
  | JBool b => b
  | JNum n => negb (n =? 0)%Z
  | JStr s => negb (String.eqb s "")
  | JArr _ | JObj _ => true
  end.

(** [v || d] with [v] possibly undefined *)
Definition or_default (v : option Json) (d : Json) : Json :=
  match v with
  | Some x => if truthy x then x else d
  | None => d
  end.

Definition default_title : Json := JStr "QNEET Update".
Definition default_options : Notification :=
  mkNotification default_title (JStr "New resources are available!")
                 (JStr "/assets/icons/icon-192.png") (JStr "/assets/icons/icon-192.png").

(** push: the result is the exception the listener threw, if any. *)
Definition on_push (data : option PushMessageData) : World → World * option Exn :=
  λ w,
    let show n := (fst (showNotification n w), None) in
    match data with
    | None => show default_options
    | Some (TextPayload _) => (w, Some SyntaxError)
    | Some (JsonPayload d) =>
        match get_property d "title" with
        | inl e => (w, Some e)
        | inr t =>
            match get_property d "body" with
            | inl e => (w, Some e)
            | inr b =>
                match get_property d "icon" with
                | inl e => (w, Some e)
                | inr i =>
                    show (mkNotification (or_default t default_title)
                                         (or_default b (nbody default_options))
                                         (or_default i (nicon default_options))
                                         (nbadge default_options))
                end
            end
        end
    end.

(** message: both listeners, in registration order. *)
Definition on_message (action : option string) : World → World :=
  λ w,
    let w1 := if bool_decide (action = Some "skipWaiting") then fst (skipWaiting w) else w in
    if bool_decide (action = Some "cleanupCache")
    then fst ((await_ (await cacheNames := caches_keys in delete_stale cacheNames) in
               postMessage "cleanupComplete") w1)
    else w1.

(** *** Lifecycle *)

Inductive WorkerState : Type := installing | installed | activating | activated | redundant.

(** [event.waitUntil(p)] of the install event: the worker becomes
    installed when [p] is fulfilled and redundant when it is rejected. *)
Definition install (w : World) : World * WorkerState :=
  match on_install w with
  | (w', Fulfilled _) => (w', installed)
  | (w', Rejected _) => (w', redundant)
  end.

(** The activate event; the worker is activated however the promise
    handed to [waitUntil] settles. *)
Definition activate (w : World) : World * WorkerState :=
  (fst (on_activate w), activated).

(** Events an activated worker handles. *)
Inductive Event : Type :=
  | EFetch (request : Request)
  | EPush (data : option PushMessageData)
  | EMessage (action : option string).

Definition handle (e : Event) (w : World) : World :=
  match e with
  | EFetch request => fst (dispatch_fetch request w)
  | EPush data => fst (on_push data w)
  | EMessage action => on_message action w
  end.

Definition names (w : World) : list string := fst <$> caches w.

(** The URLs the install listener asks [cache.addAll] to fetch. *)
Definition manifest (w : World) : list string :=
  (λ p, location_origin w +:+ p) <$> STATIC_ASSETS.

(** The key a request is cached under. *)
Definition key_of (request : Request) : string := href (url request).

Definition responds_with (r : option Response) : FetchOutcome :=
  mkFetchOutcome (Some (Fulfilled r)) None.

(** The world after a cache miss was answered by the network with a
    cacheable response [r]. *)
Definition cached_after (request : Request) (r : Response) (w : World) : World :=
  let w1 := fst (caches_open CACHE_NAME (log_fetch [key_of request] w)) in
  set_caches (storage_put CACHE_NAME (key_of request) r (caches w1)) w1.

(** The generations present: names are unique and the current one is
    among them. *)
Definition current_present (w : World) : Prop :=
  NoDup (names w) ∧ CACHE_NAME ∈ names w.

Definition run (events : list Event) (w : World) : World :=
  fold_left (λ w e, handle e w) events w.

End SW.


(** ** The persistence store *)

Module Storage.

(** The order IndexedDB lists keys in. *)
Class KeyOrder (K : Type) : Type := key_leb : K → K → bool.

#[global] Instance N_key_order : KeyOrder N := N.leb.
#[global] Instance string_key_order : KeyOrder string := String.leb.

(** *** Requests

    [init] keeps the [IDBDatabase] that [indexedDB.open] gives, so every
    call on an object store returns an [IDBRequest].  A request is not a
    promise: [await] hands the request object back, at once and whatever
    becomes of the request.

    [result] is what the request holds once it has succeeded; it holds
    nothing when it failed or when its transaction was aborted before. *)
Record IDBRequest (A : Type) : Type := mkIDBRequest { result : option A }.

Arguments mkIDBRequest {A} result.
Arguments result {A} _.

(** What a variable of the storage code holds: the data, or a request for
    the data. *)
Inductive Value (A : Type) : Type :=
  | Data (a : A)
  | RequestObject (request : IDBRequest A).

Arguments Data {A} a.
Arguments RequestObject {A} request.

(** [array.map(f)]; an [IDBRequest] has no [map], and calling what is
    [undefined] throws. *)
Definition map_ {S A B} (array : Value (list A)) (f : A → B) : Promise S (list B) :=
  match array with
  | Data l => resolve (f <$> l)
  | RequestObject _ => reject TypeError
  end.

(** [array.forEach(f)] with a callback that updates [acc]; an
    [IDBRequest] has no [forEach] either. *)
Definition forEach {S A B} (array : Value (list A)) (f : B → A → B) (acc : B)
  : Promise S B :=
  match array with
  | Data l => resolve (fold_left f l acc)
  | RequestObject _ => reject TypeError
  end.

(** [!!result], where the data is a row or [undefined]: every object is
    truthy. *)
Definition to_boolean {A} (result : Value (option A)) : bool :=
  match result with
  | Data None => false
  | Data (Some _) => true
  | RequestObject _ => true
  end.

(** *** Object stores and transactions

    A row is the pair of its key and the rest of the record.

    The requests of a transaction are carried out after the code that
    placed them, in the order they were placed.  When one of them fails,
    nothing handles the error and the transaction is aborted: its writes
    are undone and its later requests are not carried out.  The state of a
    transaction is the rows as the requests so far leave them, or [None]
    once a request has failed. *)

Section ObjectStore.
Context {K : Type} `{Countable K} `{KeyOrder K} {V : Type}.

(** A call on the store: it returns a request; [run] is what carrying the
    request out does to the rows and the result it gives, [None] when the
    request fails. *)
Definition place_request {A} (run : gmap K V → option (gmap K V * A))
  : Promise (option (gmap K V)) (Value A) :=
  λ t, match t with
       | Some m =>
           match run m with
           | Some (m', a) => (Some m', Fulfilled (RequestObject (mkIDBRequest (Some a))))
           | None => (None, Fulfilled (RequestObject (mkIDBRequest None)))
           end
       | None => (None, Fulfilled (RequestObject (mkIDBRequest None)))
       end.

(** [store.add(row)]: fails with a ConstraintError on a key that is
    stored. *)
Definition store_add (row : K * V) : Promise (option (gmap K V)) (Value K) :=
  place_request (λ m, match m !! row.1 with
                      | Some _ => None
                      | None => Some (<[row.1 := row.2]> m, row.1)
                      end).

(** [store.put(row)] *)
Definition store_put (row : K * V) : Promise (option (gmap K V)) (Value K) :=
  place_request (λ m, Some (<[row.1 := row.2]> m, row.1)).

(** [store.delete(key)] *)
Definition store_delete (k : K) : Promise (option (gmap K V)) (Value unit) :=
  place_request (λ m, Some (delete k m, tt)).

(** [store.clear()] *)
Definition store_clear : Promise (option (gmap K V)) (Value unit) :=
  place_request (λ _, Some (∅, tt)).

(** [store.get(key)] *)
Definition store_get (k : K) : Promise (option (gmap K V)) (Value (option (K * V))) :=
  place_request (λ m, Some (m, (λ v, (k, v)) <$> m !! k)).

Definition rows (m : gmap K V) : list (K * V) :=
  merge_sort (λ a b, Is_true (key_leb a.1 b.1)) (map_to_list m).

(** [store.getAll()] *)
Definition store_getAll : Promise (option (gmap K V)) (Value (list (K * V))) :=
  place_request (λ m, Some (m, rows m)).

(** The statements [await store.add(row);], [await store.put(row);],
    [await store.delete(key);] and [await store.clear();] *)
Definition await_add (row : K * V) : Promise (option (gmap K V)) unit :=
  await_ store_add row in resolve tt.

Definition await_put (row : K * V) : Promise (option (gmap K V)) unit :=
  await_ store_put row in resolve tt.

Definition await_delete (k : K) : Promise (option (gmap K V)) unit :=
  await_ store_delete k in resolve tt.

Definition await_clear : Promise (option (gmap K V)) unit :=
  await_ store_clear in resolve tt.

End ObjectStore.

Record ResourceData : Type := mkResourceData {
  category : string;
  subject : string;
  title : string
}.

Record NoteData : Type := mkNoteData {
  resourceId : N;
  content : string;
  date : string
}.

Record DownloadData : Type := mkDownloadData {
  download_resourceId : N;
  download_title : string;
  progress : N
}.

Definition Resource : Type := N * ResourceData.
Definition Favorite : Type := N * string.
Definition Note : Type := N * NoteData.
Definition Download : Type := N * DownloadData.
Definition Setting : Type := string * string.

(** The open database: the five object stores, as the next transaction
    finds them.  Transactions on a store are carried out in the order they
    were created, and the functions below place every request of a
    transaction before they create the next one. *)
Record IDBDatabase : Type := mkDB {
  resources : gmap N ResourceData;
  favorites : gmap N string;
  notes : gmap N NoteData;
  downloads : gmap N DownloadData;
  settings : gmap string string
}.

Definition set_resources (m : gmap N ResourceData) (db : IDBDatabase) : IDBDatabase :=
  mkDB m (favorites db) (notes db) (downloads db) (settings db).
Definition set_favorites (m : gmap N string) (db : IDBDatabase) : IDBDatabase :=
  mkDB (resources db) m (notes db) (downloads db) (settings db).
Definition set_notes (m : gmap N NoteData) (db : IDBDatabase) : IDBDatabase :=
  mkDB (resources db) (favorites db) m (downloads db) (settings db).
Definition set_downloads (m : gmap N DownloadData) (db : IDBDatabase) : IDBDatabase :=
  mkDB (resources db) (favorites db) (notes db) m (settings db).
Definition set_settings (m : gmap string string) (db : IDBDatabase) : IDBDatabase :=
  mkDB (resources db) (favorites db) (notes db) (downloads db) m.

(** [this.db.transaction([name], mode).objectStore(name)] followed by the
    code [p], which places its requests on that store; the transaction then
    commits, unless it was aborted. *)
Definition objectStore {K V A : Type} `{Countable K}
    (get : IDBDatabase → gmap K V) (set : gmap K V → IDBDatabase → IDBDatabase)
    (p : Promise (option (gmap K V)) A) : Promise IDBDatabase A :=
  λ db, let '(t, r) := p (Some (get db)) in
        (match t with
         | Some m => set m db
         | None => db
         end, r).

Definition in_resources {A} (p : Promise (option (gmap N ResourceData)) A)
  : Promise IDBDatabase A := objectStore resources set_resources p.
Definition in_favorites {A} (p : Promise (option (gmap N string)) A)
  : Promise IDBDatabase A := objectStore favorites set_favorites p.
Definition in_notes {A} (p : Promise (option (gmap N NoteData)) A)
  : Promise IDBDatabase A := objectStore notes set_notes p.
Definition in_downloads {A} (p : Promise (option (gmap N DownloadData)) A)
  : Promise IDBDatabase A := objectStore downloads set_downloads p.
Definition in_settings {A} (p : Promise (option (gmap string string)) A)
  : Promise IDBDatabase A := objectStore settings set_settings p.

(** *** QNEETStorage *)

Definition addResource (resource : Resource) : Promise IDBDatabase unit :=
  in_resources (await_add resource).

(** [return store.get(id)]: the promise is fulfilled with the request. *)
Definition getResource (id : N) : Promise IDBDatabase (Value (option Resource)) :=
  in_resources (store_get id).

Definition getAllResources : Promise IDBDatabase (Value (list Resource)) :=
  in_resources store_getAll.

Definition updateResource (resource : Resource) : Promise IDBDatabase unit :=
  in_resources (await_put resource).

Definition deleteResource (id : N) : Promise IDBDatabase unit :=
  in_resources (await_delete id).

(** [now] is [new Date().toISOString()] at the call. *)
Definition addFavorite (now : string) (resourceId : N) : Promise IDBDatabase unit :=
  in_favorites (await_add (resourceId, now)).

Definition removeFavorite (resourceId : N) : Promise IDBDatabase unit :=
  in_favorites (await_delete resourceId).

Definition getFavorites : Promise IDBDatabase (list N) :=
  in_favorites (await favorites := store_getAll in
                map_ favorites fst).

Definition isFavorite (resourceId : N) : Promise IDBDatabase bool :=
  in_favorites (await result := store_get resourceId in
                resolve (to_boolean result)).

Definition addNote (note : Note) : Promise IDBDatabase unit :=
  in_notes (await_add note).

(** [index.getAll(resourceId)] on the [resourceId] index: the matching
    rows in primary key order. *)
Definition index_getAll (rid : N) : Promise (option (gmap N NoteData)) (Value (list Note)) :=
  place_request (λ m, Some (m, filter (λ note : Note, resourceId note.2 = rid) (rows m))).

Definition getNotes (rid : N) : Promise IDBDatabase (Value (list Note)) :=
  in_notes (index_getAll rid).

(** One round of the [forEach] that groups the notes. *)
Definition group_note (notesByResource : gmap N (list Note)) (note : Note)
  : gmap N (list Note) :=
  let created :=
    match notesByResource !! resourceId note.2 with
    | Some _ => notesByResource
    | None => <[resourceId note.2 := []]> notesByResource
    end in
  <[resourceId note.2 := default [] (created !! resourceId note.2) ++ [note]]> created.

Definition getAllNotes : Promise IDBDatabase (gmap N (list Note)) :=
  in_notes (await allNotes := store_getAll in
            forEach allNotes group_note ∅).

Definition updateNote (note : Note) : Promise IDBDatabase unit :=
  in_notes (await_put note).

Definition deleteNote (noteId : N) : Promise IDBDatabase unit :=
  in_notes (await_delete noteId).

Definition addDownload (download : Download) : Promise IDBDatabase unit :=
  in_downloads (await_add download).

Definition getDownloads : Promise IDBDatabase (Value (list Download)) :=
  in_downloads store_getAll.

Definition updateDownload (download : Download) : Promise IDBDatabase unit :=
  in_downloads (await_put download).

Definition deleteDownload (downloadId : N) : Promise IDBDatabase unit :=
  in_downloads (await_delete downloadId).

Definition saveSetting (key value : string) : Promise IDBDatabase unit :=
  in_settings (await_put (key, value)).

(** [result ? result.value : undefined]: a request has no [value]. *)
Definition value_of (result : Value (option Setting)) : option string :=
  match result with
  | Data None => None
  | Data (Some setting) => Some setting.2
  | RequestObject _ => None
  end.

Definition getSetting (key : string) : Promise IDBDatabase (option string) :=
  in_settings (await result := store_get key in
               resolve (value_of result)).

(** The object [exportData] builds. *)
Record Export : Type := mkExport {
  export_resources : Value (list Resource);
  export_favorites : list N;
  export_notes : gmap N (list Note);
  export_downloads : Value (list Download);
  export_settings : Value (list Setting)
}.

Definition exportData : Promise IDBDatabase Export :=
  await rs := getAllResources in
  await fs := getFavorites in
  await ns := getAllNotes in
  await ds := getDownloads in
  await ss := in_settings store_getAll in
  resolve (mkExport rs fs ns ds ss).

Inductive StoreName : Type :=
  | resources_store
  | favorites_store
  | notes_store
  | downloads_store
  | settings_store.

Definition clear_store (storeName : StoreName) : Promise IDBDatabase unit :=
  match storeName with
  | resources_store => in_resources await_clear
  | favorites_store => in_favorites await_clear
  | notes_store => in_notes await_clear
  | downloads_store => in_downloads await_clear
  | settings_store => in_settings await_clear
  end.

Definition clearAllData : Promise IDBDatabase unit :=
  let stores :=
    [resources_store; favorites_store; notes_store; downloads_store; settings_store] in
  for_of stores clear_store.

(** The object [importData] reads, in the documented format; a field may
    be missing. *)
Record Backup : Type := mkBackup {
  data_resources : option (list Resource);
  data_favorites : option (list N);
  data_notes : option (gmap N (list Note));
  data_downloads : option (list Download);
  data_settings : option (list Setting)
}.

(** [if (field) { ... }] on a field of the backup *)
Definition when_present {A} (field : option A) (body : A → Promise IDBDatabase unit)
  : Promise IDBDatabase unit :=
  match field with
  | Some x => body x
  | None => resolve tt
  end.

(** [for (const resourceId in obj)] visits integer-like property names in
    ascending order. *)
Definition for_in {A} (obj : gmap N A)
    (body : N → A → Promise (option (gmap N NoteData)) unit)
  : Promise (option (gmap N NoteData)) unit :=
  for_of (rows obj) (λ entry, body entry.1 entry.2).

Definition importData (now : string) (data : Backup) : Promise IDBDatabase unit :=
  await_ clearAllData in
  await_ when_present (data_resources data) (λ rs,
           in_resources (for_of rs (λ resource, await_add resource))) in
  await_ when_present (data_favorites data) (λ fs,
           in_favorites (for_of fs (λ favorite, await_add (favorite, now)))) in
  await_ when_present (data_notes data) (λ ns,
           in_notes (for_in ns (λ resourceId group,
                       for_of group (λ note, await_add note)))) in
  await_ when_present (data_downloads data) (λ ds,
           in_downloads (for_of ds (λ download, await_add download))) in
  when_present (data_settings data) (λ ss,
    in_settings (for_of ss (λ setting, await_add setting))).

Definition empty_db : IDBDatabase := mkDB ∅ ∅ ∅ ∅ ∅.

Definition empty_backup : Backup := mkBackup None None None None None.

(** The notes of a grouping, group after group. *)
Definition flat (g : gmap N (list Note)) : list Note := concat (snd <$> map_to_list g).

End Storage.

(** ** Concrete worlds, requests and databases *)

Module Examples.
Import SW Storage.

Definition site : string := "https://qneet.example".

Definition previous_generation : string := "qneet-cache-qneet-v1.1.0".

Definition old_index : Response := mkResponse 200 basic "<html>QNEET 1.1.0</html>".

(** A device without network on which the previous version of the worker
    left its generation behind. *)
Definition offline : World :=
  mkWorld site (λ _ _, None)
          [(previous_generation, {[ site +:+ "/index.html" := old_index ]})]
          [] false false [] [].

(** The same device with a network that answers every URL. *)
Definition online : World :=
  mkWorld site (λ _ u, Some (mkResponse 200 basic u))
          [(previous_generation, {[ site +:+ "/index.html" := old_index ]})]
          [] false false [] [].

Definition page : Request :=
  mkRequest "GET" (mkURL site "/notes") (Some "text/html,application/xhtml+xml").

Definition headerless : Request := mkRequest "GET" (mkURL site "/notes") None.

Definition asset : Request := mkRequest "GET" (mkURL site "/data/new.json") (Some "*/*").

Definition api_post : Request := mkRequest "POST" (mkURL site "/api/sync") (Some "*/*").

Definition mirrored : Request :=
  mkRequest "GET" (mkURL site "/mirror/external-domain.com/a.css") (Some "text/css").

Definition study_db : IDBDatabase :=
  mkDB {[ 1%N := mkResourceData "formula-sheets" "Physics" "Physics Formula Sheet" ]}
       {[ 5%N := "2023-03-12T10:00:00.000Z"; 3%N := "2023-03-15T09:30:00.000Z" ]}
       {[ 10%N := mkNoteData 2 "revise optics" "12/03/2023";
          7%N := mkNoteData 2 "thermodynamics" "11/03/2023";
          8%N := mkNoteData 1 "units" "11/03/2023" ]}
       {[ 1700000000000%N := mkDownloadData 1 "Physics Formula Sheet" 100 ]}
       {[ "theme" := "dark" ]}.

Definition partial_backup : Backup :=
  mkBackup None (Some [4%N]) None None None.

End Examples.

(** ** The schema upgrade of [init] (storage.js, [onupgradeneeded]) *)

Module Schema.

(** An object store of the schema: its key path and, by index name, the
    key paths of its indexes. *)
Record ObjectStoreSchema : Type := mkObjectStore {
  keyPath : string;
  indexNames : gmap string string
}.

(** [db.objectStoreNames.contains(name)] *)
Definition contains (db : gmap string ObjectStoreSchema) (name : string) : bool :=
  bool_decide (is_Some (db !! name)).

(** [db.createObjectStore(name, { keyPath })]; the listener calls it only
    for a name the database does not contain. *)
Definition createObjectStore (name path : string) (db : gmap string ObjectStoreSchema)
  : gmap string ObjectStoreSchema :=
  <[name := mkObjectStore path ∅]> db.

(** [store.createIndex(index, path, { unique: false })] on the store
    [name]. *)
Definition createIndex (name index path : string) (db : gmap string ObjectStoreSchema)
  : gmap string ObjectStoreSchema :=
  alter (λ s, mkObjectStore (keyPath s) (<[index := path]> (indexNames s))) name db.

Definition onupgradeneeded (db : gmap string ObjectStoreSchema)
  : gmap string ObjectStoreSchema :=
  let db1 :=
    if contains db "resources" then db
    else createIndex "resources" "subject" "subject"
           (createIndex "resources" "category" "category"
              (createObjectStore "resources" "id" db)) in
  let db2 :=
    if contains db1 "favorites" then db1
    else createObjectStore "favorites" "id" db1 in
  let db3 :=
    if contains db2 "notes" then db2
    else createIndex "notes" "date" "date"
           (createIndex "notes" "resourceId" "resourceId"
              (createObjectStore "notes" "id" db2)) in
  let db4 :=
    if contains db3 "downloads" then db3
    else createObjectStore "downloads" "id" db3 in
  if contains db4 "settings" then db4
  else createObjectStore "settings" "key" db4.

Definition store_names : gset string :=
  {[ "resources"; "favorites"; "notes"; "downloads"; "settings" ]}.

End Schema.

(** ** Backups and what [importData] stores of them *)

Module Backups.
Import Storage.

(** One section of [importData]: when the backup has the field, its rows
    are added one by one in a transaction of their own. *)
Definition import_section {K V : Type} `{Countable K}
    (get : IDBDatabase → gmap K V) (set : gmap K V → IDBDatabase → IDBDatabase)
    (field : option (list (K * V))) : Promise IDBDatabase unit :=
  when_present field (λ l, objectStore get set (for_of l await_add)).

(** The rows [importData] adds for the favorites and for the notes, in the
    order it adds them. *)
Definition favorite_rows (now : string) (fs : list N) : list Favorite :=
  (λ favorite, (favorite, now)) <$> fs.

Definition note_rows (ns : gmap N (list Note)) : list Note :=
  concat (snd <$> rows ns).

(** What a section leaves in its emptied store: its rows when no key
    occurs twice among them, and nothing otherwise. *)
Definition stored {K V : Type} `{Countable K} (field : option (list (K * V))) : gmap K V :=
  match field with
  | Some l => if decide (NoDup l.*1) then list_to_map l else ∅
  | None => ∅
  end.

(** The backup in the documented format that lists the rows of a
    database. *)
Definition backup_of (db : IDBDatabase) : Backup :=
  mkBackup (Some (rows (resources db)))
           (Some (rows (favorites db)).*1)
           (Some (fold_left group_note (rows (notes db)) ∅))
           (Some (rows (downloads db)))
           (Some (rows (settings db))).

End Backups.

(** ** The remaining listeners of sw.js *)

Module SWEvents.
Import SW.

(** The entries of the generation called [name]. *)
Fixpoint generation (name : string) (cs : list (string * gmap string Response))
  : option (gmap string Response) :=
  match cs with
  | [] => None
  | (n, c) :: cs' => if String.eqb n name then Some c else generation name cs'
  end.

(** A response the fetch listener writes to the cache. *)
Definition cacheable (r : Response) : Prop := status r = 200%N ∧ type r = basic.

(** Every entry of every generation satisfies [P]. *)
Definition all_entries (P : Response → Prop) (w : World) : Prop :=
  ∀ name c key r, (name, c) ∈ caches w → c !! key = Some r → P r.

(** The world after a list of fetch events. *)
Definition fetch_all (requests : list Request) (w : World) : World :=
  fold_left (λ w request, fst (dispatch_fetch request w)) requests w.

(** How the push listener fills a field of the notification from the
    payload's [fields]: the value is the default [d] or a truthy value the
    payload gives under [name]; when the payload names no key twice, a
    truthy value under [name] is the one chosen. *)
Definition chosen (fields : list (string * Json)) (name : string) (d v : Json) : Prop :=
  (v = d ∨ ∃ x, (name, x) ∈ fields ∧ truthy x = true ∧ v = x) ∧
  (NoDup fields.*1 → ∀ x, (name, x) ∈ fields → truthy x = true → v = x).

(** *** notificationclick *)

(** A window client as [clients.matchAll] lists it; [focusable] is
    ['focus' in client]. *)
Record WindowClient : Type := mkWindowClient {
  client_url : string;
  focusable : bool
}.

(** What the click listener acts on: the window clients, whether
    [clients.openWindow] exists, and what has been closed, focused and
    opened so far. *)
Record Windows : Type := mkWindows {
  clientList : list WindowClient;
  openWindowAvailable : bool;
  notificationClosed : bool;
  focusedClients : list nat;
  openedWindows : list string
}.

(** The [for ... of] loop over the clients: the position of the first
    client whose url is ['/'] and that can be focused. *)
Fixpoint first_root_client (i : nat) (clients : list WindowClient) : option nat :=
  match clients with
  | [] => None
  | client :: rest =>
      if String.eqb (client_url client) "/" && focusable client
      then Some i
      else first_root_client (S i) rest
  end.

Definition on_notificationclick (s : Windows) : Windows :=
  let s1 := mkWindows (clientList s) (openWindowAvailable s) true
                      (focusedClients s) (openedWindows s) in
  match first_root_client 0 (clientList s1) with
  | Some i =>
      mkWindows (clientList s1) (openWindowAvailable s1) (notificationClosed s1)
                (focusedClients s1 ++ [i]) (openedWindows s1)
  | None =>
      if openWindowAvailable s1
      then mkWindows (clientList s1) (openWindowAvailable s1) (notificationClosed s1)
                     (focusedClients s1) (openedWindows s1 ++ ["/"])
      else s1
  end.

(** *** sync and periodicsync *)

(** The notifications of the two sync functions carry a title, a body and
    an icon. *)
Record Notice : Type := mkNotice {
  notice_title : string;
  notice_body : string;
  notice_icon : string
}.

(** The worker's world together with the notices shown. *)
Definition SyncWorld : Type := World * list Notice.

Definition lift_world {A} (p : Promise World A) : Promise SyncWorld A :=
  λ s, let '(w', r) := p (fst s) in ((w', snd s), r).

Definition showNotice (n : Notice) : Promise SyncWorld unit :=
  λ s, ((fst s, snd s ++ [n]), Fulfilled tt).

Section Sync.
(** [JSON.parse] of a response body; [None] when the body is not JSON. *)
Variable parse : string → option Json.

(** [response.json()] *)
Definition response_json (r : Response) : Promise SyncWorld Json :=
  match parse (body r) with
  | Some v => resolve v
  | None => reject SyntaxError
  end.

(** [resources.length]: reading a property of [null] throws. *)
Definition read_length (resources : Json) : Promise SyncWorld unit :=
  match resources with
  | JNull => reject TypeError
  | _ => resolve tt
  end.

Definition syncResources : Promise SyncWorld unit :=
  catch_
    (await response := lift_world (λ w, fetch "GET" (location_origin w +:+ "/data/resources.json") w) in
     await resources := response_json response in
     await_ read_length resources in
     await_ floating (showNotice (mkNotice "QNEET" "Resources updated successfully!"
                                           "/assets/icons/icon-192.png")) in
     resolve tt)
    (λ error, resolve tt).

Definition updateResources : Promise SyncWorld unit :=
  catch_
    (await_ floating (showNotice (mkNotice "QNEET" "Resource library is up to date!"
                                           "/assets/icons/icon-192.png")) in
     resolve tt)
    (λ error, resolve tt).

(** The sync listener: the promise handed to [waitUntil], when the tag is
    the one it knows. *)
Definition on_sync (tag : string) : SyncWorld → SyncWorld * option (Settled unit) :=
  λ s, if String.eqb tag "sync-resources"
       then let '(s', r) := syncResources s in (s', Some r)
       else (s, None).

Definition on_periodicsync (tag : string) : SyncWorld → SyncWorld * option (Settled unit) :=
  λ s, if String.eqb tag "update-resources"
       then let '(s', r) := updateResources s in (s', Some r)
       else (s, None).
End Sync.

End SWEvents.

(** ** The download simulation of js/main.js *)

Module App.

(** The part of the page's state the download code works on.  The
    download objects live in [heap]; the [downloads] array and the
    intervals refer to them by position, so that the change an interval
    makes to its object is the change the array shows. *)
Record App : Type := mkApp {
  resources : list Storage.Resource;
  heap : list Storage.Download;
  downloads : list nat;
  intervals : list nat;
  db : Storage.IDBDatabase
}.

(** A call of the [storage] object on the page's database. *)
Definition storage {A} (p : Promise Storage.IDBDatabase A) : Promise App A :=
  λ app, let '(d, r) := p (db app) in
         (mkApp (resources app) (heap app) (downloads app) (intervals app) d, r).

(** [resources.find(r => r.id == resourceId)] *)
Definition find_resource (resourceId : N) (l : list Storage.Resource)
  : option Storage.Resource :=
  List.find (λ r, (r.1 =? resourceId)%N) l.

(** [downloads.push(download)] of a new object *)
Definition push_download (download : Storage.Download) : Promise App nat :=
  λ app, let h := length (heap app) in
         (mkApp (resources app) (heap app ++ [download]) (downloads app ++ [h])
                (intervals app) (db app), Fulfilled h).

(** [setInterval(..., 200)] with a callback on the object at [h] *)
Definition setInterval (h : nat) : Promise App unit :=
  λ app, (mkApp (resources app) (heap app) (downloads app) (intervals app ++ [h]) (db app),
          Fulfilled tt).

Definition clearInterval (h : nat) : Promise App unit :=
  λ app, (mkApp (resources app) (heap app) (downloads app)
                (filter (λ i, i ≠ h) (intervals app)) (db app), Fulfilled tt).

(** [download.progress = p] on the object at [h] *)
Definition set_progress (h : nat) (p : N) : Promise App unit :=
  λ app, (mkApp (resources app)
                (alter (λ d : Storage.Download,
                          (d.1, Storage.mkDownloadData (Storage.download_resourceId d.2)
                                                       (Storage.download_title d.2) p))
                       h (heap app))
                (downloads app) (intervals app) (db app), Fulfilled tt).

(** The object at [h] as it is now. *)
Definition deref (h : nat) : Promise App Storage.Download :=
  λ app, match heap app !! h with
         | Some d => (app, Fulfilled d)
         | None => (app, Rejected TypeError)
         end.

(** [downloadResource(resourceId)]; [now] is the value of [Date.now()]. *)
Definition downloadResource (now : N) (resourceId : N) : Promise App unit :=
  λ app,
    match find_resource resourceId (resources app) with
    | None => (app, Fulfilled tt)
    | Some resource =>
        let download : Storage.Download :=
          (now, Storage.mkDownloadData resource.1 (Storage.title resource.2) 0) in
        (await h := push_download download in
         await_ storage (Storage.addDownload download) in
         setInterval h) app
    end.

(** One firing of the interval set for the object at [h]; a cleared
    interval does not fire. *)
Definition tick (h : nat) : Promise App unit :=
  λ app,
    if bool_decide (h ∈ intervals app)
    then (await d := deref h in
          await_ set_progress h (Storage.progress d.2 + 5) in
          if (100 <=? Storage.progress d.2 + 5)%N
          then await_ set_progress h 100 in
               await_ clearInterval h in
               await d' := deref h in
               storage (Storage.updateDownload d')
          else resolve tt) app
    else (app, Fulfilled tt).

(** [k] firings of the interval at [h]. *)
Fixpoint ticks (k : nat) (h : nat) (app : App) : App :=
  match k with
  | O => app
  | S k' => ticks k' h (fst (tick h app))
  end.

(** [clearUserData()]; [confirmed] is the answer to the [confirm] dialog. *)
Definition clearUserData (confirmed : bool) : Promise App unit :=
  if confirmed
  then catch_
         (await_ storage Storage.clearAllData in
          λ app, (mkApp (resources app) (heap app) [] (intervals app) (db app),
                  Fulfilled tt))
         (λ _, resolve tt)
  else resolve tt.

End App.

(** ** The page navigation of js/pdf-viewer.js *)

Module PDFViewer.

(** A viewer: [pdfDoc] is the number of pages of the loaded document,
    [inFlight] the page of the render that has begun and has not settled
    yet, and [rendered] the page of the last render that drew.  The scale
    is left out: it does not decide which page is rendered. *)
Record Viewer : Type := mkViewer {
  pdfDoc : option Z;
  currentPage : Z;
  isRendering : bool;
  pageRenderingQueue : option Z;
  inFlight : option Z;
  rendered : option Z
}.

(** The viewer the constructor builds. *)
Definition new_viewer : Viewer := mkViewer None 1 false None None None.

(** [renderPage(pageNum)] up to its first [await]. *)
Definition renderPage_begin (pageNum : Z) (v : Viewer) : Viewer :=
  match pdfDoc v with
  | None => v
  | Some _ =>
      if isRendering v then v
      else mkViewer (pdfDoc v) (currentPage v) true (pageRenderingQueue v)
                    (Some pageNum) (rendered v)
  end.

(** The rest of [renderPage], once the render in flight has settled:
    [ok] tells whether the page was drawn; then the [finally] block. *)
Definition renderPage_settle (ok : bool) (v : Viewer) : Viewer :=
  if isRendering v then
    let v1 := mkViewer (pdfDoc v) (currentPage v) false (pageRenderingQueue v) None
                       (if ok then inFlight v else rendered v) in
    match pageRenderingQueue v1 with
    | Some queued =>
        if bool_decide (queued ≠ currentPage v1)
        then renderPage_begin queued
               (mkViewer (pdfDoc v1) (currentPage v1) (isRendering v1) None
                         (inFlight v1) (rendered v1))
        else v1
    | None => v1
    end
  else v.

Definition queueRenderPage (pageNum : Z) (v : Viewer) : Viewer :=
  if isRendering v
  then mkViewer (pdfDoc v) (currentPage v) (isRendering v) (Some pageNum)
                (inFlight v) (rendered v)
  else renderPage_begin pageNum v.

Definition set_currentPage (p : Z) (v : Viewer) : Viewer :=
  mkViewer (pdfDoc v) p (isRendering v) (pageRenderingQueue v) (inFlight v) (rendered v).

Definition previousPage (v : Viewer) : Exn + Viewer :=
  if (currentPage v <=? 1)%Z then inr v
  else let v1 := set_currentPage (currentPage v - 1) v in
       inr (queueRenderPage (currentPage v1) v1).

(** Reading [this.pdfDoc.numPages] throws when there is no document. *)
Definition nextPage (v : Viewer) : Exn + Viewer :=
  match pdfDoc v with
  | None => inl TypeError
  | Some numPages =>
      if (numPages <=? currentPage v)%Z then inr v
      else let v1 := set_currentPage (currentPage v + 1) v in
           inr (queueRenderPage (currentPage v1) v1)
  end.

(** [goToPage(pageNum)] for an integer [pageNum].  Nothing in the
    repository calls it; its guard would let [NaN] and fractions through,
    which this model of the page numbers leaves out. *)
Definition goToPage (pageNum : Z) (v : Viewer) : Exn + Viewer :=
  if (pageNum <? 1)%Z then inr v
  else match pdfDoc v with
       | None => inl TypeError
       | Some numPages =>
           if (numPages <? pageNum)%Z then inr v
           else let v1 := set_currentPage pageNum v in
                inr (queueRenderPage (currentPage v1) v1)
       end.

(** [zoomIn()], and [zoomOut()] above the smallest scale: the current page
    is rendered again. *)
Definition zoom (v : Viewer) : Viewer := queueRenderPage (currentPage v) v.

(** [loadPDF(url)] from the moment the document, of [numPages] pages, has
    arrived. *)
Definition loaded (numPages : Z) (v : Viewer) : Viewer :=
  renderPage_begin 1
    (mkViewer (Some numPages) 1 (isRendering v) (pageRenderingQueue v)
              (inFlight v) (rendered v)).

Inductive Action : Type :=
  | PreviousPage
  | NextPage
  | GoToPage (pageNum : Z)
  | Zoom
  | RenderSettled (ok : bool).

Definition act (a : Action) (v : Viewer) : Exn + Viewer :=
  match a with
  | PreviousPage => previousPage v
  | NextPage => nextPage v
  | GoToPage p => goToPage p v
  | Zoom => inr (zoom v)
  | RenderSettled ok => inr (renderPage_settle ok v)
  end.

(** The actions the viewer's own controls and its renders give rise to:
    the constructor wires the Previous, Next and zoom buttons, and nothing
    to [goToPage]. *)
Definition wired (a : Action) : bool :=
  match a with
  | GoToPage _ => false
  | _ => true
  end.

(** A list of actions, up to the first exception. *)
Fixpoint acts (l : list Action) (v : Viewer) : Exn + Viewer :=
  match l with
  | [] => inr v
  | a :: l' =>
      match act a v with
      | inl e => inl e
      | inr v' => acts l' v'
      end
  end.

(** The pages the viewer holds all lie in a document of [n] pages. *)
Definition within (n : Z) (page : option Z) : Prop :=
  ∀ p, page = Some p → (1 ≤ p ≤ n)%Z.

Definition in_document (n : Z) (v : Viewer) : Prop :=
  pdfDoc v = Some n ∧ (1 ≤ currentPage v ≤ n)%Z ∧
  within n (pageRenderingQueue v) ∧ within n (inFlight v) ∧ within n (rendered v).

End PDFViewer.

(** ** Two helpers of js/utils.js *)

Module Utils.

(** [DataUtils.removeDuplicates(array, key)], with [seen] the set the
    filter callback fills; [key] reads the property. *)
Fixpoint filter_unseen {A K : Type} `{Countable K} (key : A → K) (seen : gset K)
    (array : list A) : list A :=
  match array with
  | [] => []
  | item :: rest =>
      if decide (key item ∈ seen)
      then filter_unseen key seen rest
      else item :: filter_unseen key ({[key item]} ∪ seen) rest
  end.

Definition removeDuplicates {A K : Type} `{Countable K} (key : A → K) (array : list A)
  : list A :=
  filter_unseen key ∅ array.

(** [s.lastIndexOf(c)] for a one-character [c]: the position of the last
    occurrence, or -1. *)
Fixpoint lastIndexOf_from (i found : Z) (s : string) (c : Ascii.ascii) : Z :=
  match s with
  | EmptyString => found
  | String x s' => lastIndexOf_from (i + 1) (if Ascii.eqb x c then i else found) s' c
  end.

Definition lastIndexOf (s : string) (c : Ascii.ascii) : Z :=
  lastIndexOf_from 0 (-1) s c.

(** [x >>> 0] on an integer *)
Definition to_uint32 (x : Z) : Z := x mod 2 ^ 32.

(** [s.slice(start)] for [start >= 0] *)
Fixpoint slice (start : N) (s : string) : string :=
  match s with
  | EmptyString => EmptyString
  | String x s' => if (start =? 0)%N then s else slice (N.pred start) s'
  end.

(** The character of the string ["."]. *)
Definition dot : Ascii.ascii :=
  match "." with
  | String c _ => c
  | EmptyString => Ascii.zero
  end.

(** [FileUtils.getFileExtension(filename)] *)
Definition getFileExtension (filename : string) : string :=
  slice (Z.to_N (to_uint32 (lastIndexOf filename dot - 1) + 2)) filename.

End Utils.

(** ** More example states *)

Module Scenarios.
Import SW Storage.

(** The online device of the examples after the install of this version:
    the previous generation and the current one are both present. *)
Definition upgraded : World := fst (install Examples.online).

(** A device whose network answers everything but the notes page. *)
Definition patchy : World :=
  mkWorld Examples.site
          (λ _ u, if String.eqb u (Examples.site +:+ "/notes") then None
                  else Some (mkResponse 200 basic u))
          [] [] false false [] [].

Definition external : Request :=
  mkRequest "GET" (mkURL "https://external-domain.com" "/lib.js") (Some "*/*").

Definition formula_sheet : Resource :=
  (1%N, mkResourceData "formula-sheets" "Physics" "Physics Formula Sheet").

(** The page with one resource, nothing downloading, on the study
    database. *)
Definition library : App.App :=
  App.mkApp [formula_sheet] [] [] [] Examples.study_db.



Definition turned : PDFViewer.Viewer :=
  PDFViewer.mkViewer (Some 3%Z) 2 false (Some 2%Z) None (Some 1%Z).

End Scenarios.

(** * Properties *)

Import SW.

(** ** Cache storage *)

Lemma eqb_decide (a b : string) : String.eqb a b = bool_decide (a = b).
Proof.
  destruct (String.eqb_spec a b).
  - by rewrite bool_decide_eq_true_2.
  - by rewrite bool_decide_eq_false_2.
Qed.

Lemma caches_has_In cs name : caches_has cs name = true ↔ name ∈ cs.*1.
Proof.
  unfold caches_has. rewrite existsb_exists, list_elem_of_fmap.
  split.
  - intros (c & Hc & Heq). apply String.eqb_eq in Heq. exists c. split; [done|].
    by apply list_elem_of_In.
  - intros (c & -> & Hc). exists c. split; [by apply list_elem_of_In|apply String.eqb_refl].
Qed.

Lemma set_caches_id w : set_caches (caches w) w = w.
Proof. by destruct w. Qed.

Lemma set_caches_twice cs1 cs2 w : set_caches cs2 (set_caches cs1 w) = set_caches cs2 w.
Proof. done. Qed.

Lemma delete_stale_run l w :
  ∃ v, delete_stale l w =
    (set_caches (filter (λ c, c.1 = CACHE_NAME ∨ c.1 ∉ l) (caches w)) w, Fulfilled v).
Proof.
  revert w. induction l as [|n l IH]; intros w.
  - exists []. cbn. f_equal.
    assert (∀ cs : list (string * gmap string Response),
              filter (λ c, c.1 = CACHE_NAME ∨ c.1 ∉ []) cs = cs) as ->.
    { induction cs as [|c cs IHc]; [done|].
      rewrite filter_cons_True; [by rewrite IHc|]. right. apply not_elem_of_nil. }
    by rewrite set_caches_id.
  - unfold delete_stale in *. cbn [fmap list_fmap Promise_all].
    unfold then_ at 1. destruct (decide (n ≠ CACHE_NAME)) as [Hn|Hn].
    + cbn. destruct (IH (set_caches (filter (λ c, c.1 ≠ n) (caches w)) w)) as [v IH1].
      unfold then_ at 1. rewrite IH1. eexists. unfold resolve. cbn. f_equal.
      rewrite list_filter_filter. unfold set_caches. cbn. f_equal.
      apply list_filter_iff. intros c.
      rewrite elem_of_cons. intuition congruence.
    + apply dec_stable in Hn. subst n. cbn.
      destruct (IH w) as [v IH1].
      unfold then_ at 1. rewrite IH1. eexists. unfold resolve. cbn. f_equal.
      f_equal. apply list_filter_iff. intros c. rewrite elem_of_cons.
      destruct (decide (c.1 = CACHE_NAME)); intuition congruence.
Qed.

Lemma filter_names_all (cs : list (string * gmap string Response)) :
  filter (λ c, c.1 = CACHE_NAME ∨ c.1 ∉ cs.*1) cs = filter (λ c, c.1 = CACHE_NAME) cs.
Proof.
  assert (∀ l : list string, (∀ c, c ∈ cs → c.1 ∈ l) →
    filter (λ c, c.1 = CACHE_NAME ∨ c.1 ∉ l) cs = filter (λ c, c.1 = CACHE_NAME) cs) as H.
  { intros l. induction cs as [|c cs IH]; intros Hl; [done|].
    rewrite !filter_cons. rewrite IH by (intros; apply Hl; by right).
    destruct (decide (c.1 = CACHE_NAME)) as [?|Hne].
    - by rewrite decide_True by (by left).
    - rewrite decide_False; [done|]. intros [?|Hnot]; [done|]. apply Hnot, Hl. by left. }
  apply H. intros c Hc. by apply list_elem_of_fmap_2.
Qed.

Lemma on_activate_run w :
  ∃ w', on_activate w = (w', Fulfilled tt) ∧
    caches w' = filter (λ c, c.1 = CACHE_NAME) (caches w) ∧
    location_origin w' = location_origin w ∧ network w' = network w ∧
    netlog w' = netlog w ∧ clientsClaimed w' = true.
Proof.
  unfold on_activate, then_, caches_keys.
  destruct (delete_stale_run (caches w).*1 w) as [v ->]. cbn.
  eexists. split; [done|]. cbn. by rewrite filter_names_all.
Qed.

Lemma names_storage_put name key r cs : (storage_put name key r cs).*1 = cs.*1.
Proof.
  unfold storage_put. rewrite <- list_fmap_compose. apply list_fmap_ext.
  intros _ c _. cbn. by destruct (String.eqb c.1 name).
Qed.

Lemma names_fold_put name (l : list (string * Response)) cs :
  (fold_left (λ cs e, storage_put name e.1 e.2 cs) l cs).*1 = cs.*1.
Proof.
  revert cs. induction l as [|e l IH]; intros cs; [done|].
  cbn. by rewrite IH, names_storage_put.
Qed.

Lemma storage_match_app cs1 cs2 key :
  storage_match (cs1 ++ cs2) key =
    match storage_match cs1 key with
    | Some r => Some r
    | None => storage_match cs2 key
    end.
Proof.
  induction cs1 as [|[n c] cs1 IH]; [done|]. cbn. by destruct (c !! key).
Qed.

(** Opening a generation never changes what [caches.match] answers. *)
Lemma caches_open_run name w :
  ∃ w', caches_open name w = (w', Fulfilled name) ∧
    caches_has (caches w') name = true ∧
    (names w' = names w ∨ ((name ∉ names w) ∧ names w' = names w ++ [name])) ∧
    (∀ key, storage_match (caches w') key = storage_match (caches w) key) ∧
    location_origin w' = location_origin w ∧ network w' = network w ∧
    netlog w' = netlog w ∧ skipWaitingRequested w' = skipWaitingRequested w.
Proof.
  unfold caches_open. destruct (caches_has (caches w) name) eqn:E.
  - exists w. repeat split; auto.
  - eexists. split; [done|]. cbn. repeat split.
    + apply caches_has_In. rewrite fmap_app, elem_of_app. right. cbn. by left.
    + right. split.
      * intros Hin%caches_has_In. congruence.
      * unfold names. cbn. by rewrite fmap_app.
    + intros key. rewrite storage_match_app. cbn.
      rewrite lookup_empty. by destruct (storage_match _ _).
Qed.

Lemma storage_put_cons name key r n c cs :
  storage_put name key r ((n, c) :: cs) =
    (if String.eqb n name then (n, <[key := r]> c) else (n, c)) :: storage_put name key r cs.
Proof. done. Qed.


Lemma storage_match_put_fresh name key r cs :
  caches_has cs name = true → storage_match cs key = None →
  storage_match (storage_put name key r cs) key = Some r.
Proof.
  induction cs as [|[n c] cs IH]; [done|]. rewrite storage_put_cons. cbn.
  destruct (c !! key) eqn:Ec; [done|]. intros Hhas Hnone.
  destruct (String.eqb n name) eqn:En; cbn.
  - by rewrite lookup_insert_eq.
  - rewrite Ec. by apply IH.
Qed.

Lemma storage_match_put_some name key r cs key' :
  is_Some (storage_match cs key') → is_Some (storage_match (storage_put name key r cs) key').
Proof.
  induction cs as [|[n c] cs IH]; [done|]. rewrite storage_put_cons. cbn.
  destruct (String.eqb n name); cbn.
  - destruct (decide (key = key')) as [->|Hne].
    + by rewrite lookup_insert_eq.
    + rewrite lookup_insert_ne by done. destruct (c !! key'); [done|apply IH].
  - destruct (c !! key'); [done|apply IH].
Qed.

Lemma storage_match_put_has name key r cs :
  caches_has cs name = true → is_Some (storage_match (storage_put name key r cs) key).
Proof.
  induction cs as [|[n c] cs IH]; [done|]. rewrite storage_put_cons. cbn.
  destruct (String.eqb n name) eqn:En; cbn.
  - by rewrite lookup_insert_eq.
  - intros Hhas. destruct (c !! key); [done|by apply IH].
Qed.

Lemma caches_has_names cs cs' name : cs.*1 = cs'.*1 → caches_has cs name = caches_has cs' name.
Proof.
  intros Heq. apply eq_true_iff_eq. by rewrite !caches_has_In, Heq.
Qed.

Lemma fetch_batch_fails net us u :
  u ∈ us → net "GET" u = None → fetch_batch net us = None.
Proof.
  induction us as [|u' us IH]; [by intros ?%elem_of_nil|].
  intros [->|Hin]%elem_of_cons Hnone; cbn.
  - by rewrite Hnone.
  - destruct (net "GET" u'); [|done]. destruct (ok_status r); [|done].
    by rewrite IH.
Qed.

Lemma on_install_failure w :
  fetch_batch (network w) (manifest w) = None →
  on_install w = (log_fetch (manifest w) (fst (caches_open CACHE_NAME w)), Fulfilled tt).
Proof.
  intros Hnone. unfold on_install, catch_, then_.
  destruct (caches_open_run CACHE_NAME w) as (w' & -> & _ & _ & _ & Ho & Hn & _).
  unfold cache_addAll. rewrite Ho, Hn. fold (manifest w). by rewrite Hnone.
Qed.

Lemma on_install_success w l :
  fetch_batch (network w) (manifest w) = Some l →
  on_install w =
    (fst (skipWaiting (log_fetch (manifest w)
       (set_caches (fold_left (λ cs e, storage_put CACHE_NAME e.1 e.2 cs) l
                      (caches (fst (caches_open CACHE_NAME w))))
                   (fst (caches_open CACHE_NAME w))))), Fulfilled tt).
Proof.
  intros Hsome. unfold on_install, catch_, then_.
  destruct (caches_open_run CACHE_NAME w) as (w' & -> & _ & _ & _ & Ho & Hn & _).
  unfold cache_addAll. rewrite Ho, Hn. fold (manifest w). by rewrite Hsome.
Qed.

Lemma install_installed w : snd (install w) = installed.
Proof.
  unfold install. destruct (fetch_batch (network w) (manifest w)) eqn:E.
  - by rewrite (on_install_success _ _ E).
  - by rewrite (on_install_failure _ E).
Qed.

Lemma cache_first_hit request w r :
  storage_match (caches w) (key_of request) = Some r →
  cache_first request w = (w, Fulfilled (Some r)).
Proof. intros Hhit. unfold cache_first, then_, caches_match. cbn. unfold key_of in Hhit. by rewrite Hhit. Qed.

Lemma cache_first_miss_cacheable request w r :
  storage_match (caches w) (key_of request) = None →
  network w (method request) (key_of request) = Some r →
  status r = 200%N → type r = basic →
  cache_first request w = (cached_after request r w, Fulfilled (Some r)).
Proof.
  intros Hmiss Hnet Hst Hty. unfold cache_first, then_ at 1, caches_match. cbn [fst snd].
  unfold key_of in *. rewrite Hmiss. unfold catch_, then_ at 1, fetch. rewrite Hnet.
  rewrite Hst, Hty, bool_decide_eq_true_2 by done. cbn [N.eqb Pos.eqb andb].
  unfold cached_after, key_of, floating, then_, resolve. cbn beta.
  destruct (caches_open_run CACHE_NAME (log_fetch [href (url request)] w)) as (w' & -> & _).
  done.
Qed.

Lemma cache_first_miss_other request w r :
  storage_match (caches w) (key_of request) = None →
  network w (method request) (key_of request) = Some r →
  (status r =? 200)%N && bool_decide (type r = basic) = false →
  cache_first request w = (log_fetch [key_of request] w, Fulfilled (Some r)).
Proof.
  intros Hmiss Hnet Hc. unfold cache_first, then_ at 1, caches_match. cbn [fst snd].
  unfold key_of in *. rewrite Hmiss. unfold catch_, then_ at 1, fetch. rewrite Hnet.
  by rewrite Hc.
Qed.

Lemma cache_first_offline request w :
  storage_match (caches w) (key_of request) = None →
  network w (method request) (key_of request) = None →
  cache_first request w =
    (log_fetch [key_of request] w,
     match accept request with
     | None => Rejected TypeError
     | Some a =>
         if includes a "text/html"
         then Fulfilled (storage_match (caches w) (location_origin w +:+ "/index.html"))
         else Fulfilled None
     end).
Proof.
  intros Hmiss Hnet. unfold cache_first, then_ at 1, caches_match. cbn [fst snd].
  unfold key_of in *. rewrite Hmiss. unfold catch_, then_ at 1, fetch. rewrite Hnet.
  destruct (accept request) as [a|]; [|done]. by destruct (includes a "text/html").
Qed.

(** What a run of [cache_first] can do to the cache storage. *)
Lemma cache_first_caches request w :
  caches (fst (cache_first request w)) = caches w ∨
  ∃ r, caches (fst (cache_first request w)) =
         storage_put CACHE_NAME (key_of request) r
           (caches (fst (caches_open CACHE_NAME w))).
Proof.
  destruct (storage_match (caches w) (key_of request)) as [c|] eqn:Hm.
  { left. by rewrite (cache_first_hit _ _ _ Hm). }
  destruct (network w (method request) (key_of request)) as [r|] eqn:Hn.
  - destruct ((status r =? 200)%N && bool_decide (type r = basic)) eqn:Hc.
    + right. exists r. apply andb_prop in Hc as [Hs%N.eqb_eq Ht%bool_decide_eq_true].
      rewrite (cache_first_miss_cacheable _ _ _ Hm Hn Hs Ht).
      unfold cached_after, caches_open. cbn [caches log_fetch].
      by destruct (caches_has (caches w) CACHE_NAME).
    + left. by rewrite (cache_first_miss_other _ _ _ Hm Hn Hc).
  - left. by rewrite (cache_first_offline _ _ Hm Hn).
Qed.

Lemma names_open name w :
  NoDup (names w) →
  NoDup (names (fst (caches_open name w))) ∧ name ∈ names (fst (caches_open name w)) ∧
  ∀ n, n ∈ names w → n ∈ names (fst (caches_open name w)).
Proof.
  intros Hnd. destruct (caches_open_run name w) as (w' & -> & Hhas & Hnames & _).
  cbn. apply caches_has_In in Hhas. split; [|split; [done|]].
  - destruct Hnames as [->|[Hnot ->]]; [done|].
    apply NoDup_app. split; [done|]. split; [|apply NoDup_singleton].
    intros x Hx ->%list_elem_of_singleton. done.
  - intros n Hn. destruct Hnames as [->|[_ ->]]; [done|]. apply elem_of_app. by left.
Qed.

Lemma cache_first_present request w :
  current_present w → current_present (fst (cache_first request w)).
Proof.
  intros [Hnd Hin]. unfold current_present, names in *.
  destruct (cache_first_caches request w) as [->|[r ->]]; [done|].
  rewrite names_storage_put.
  destruct (names_open CACHE_NAME w Hnd) as (? & ? & ?). done.
Qed.

Lemma on_fetch_external_caches request before w :
  caches (fst (on_fetch_external request before w)) = caches w.
Proof.
  unfold on_fetch_external. destruct (includes _ _); [|done].
  unfold catch_, then_, fetch.
  destruct (network w _ _); cbn; by destruct (responded before).
Qed.

Lemma dispatch_fetch_present bypass request w :
  current_present w → current_present (fst (dispatch_fetch_with bypass request w)).
Proof.
  intros Hw. unfold dispatch_fetch_with.
  destruct (on_fetch_with bypass request w) as [w1 o1] eqn:E.
  assert (current_present w1) as [Hnd Hin].
  { unfold on_fetch_with in E.
    destruct (negb _); [by inversion E; subst|].
    destruct (existsb _ _); [by inversion E; subst|].
    destruct (String.eqb _ _); [|by inversion E; subst].
    pose proof (cache_first_present request w Hw) as Hp.
    destruct (cache_first request w) as [w' r]. by inversion E; subst. }
  unfold current_present, names. by rewrite on_fetch_external_caches.
Qed.

Lemma on_push_caches data w : caches (fst (on_push data w)) = caches w.
Proof.
  unfold on_push. destruct data as [[d|t]|]; try done.
  destruct (get_property d "title"); [done|].
  destruct (get_property d "body"); [done|].
  by destruct (get_property d "icon").
Qed.

Lemma on_message_present action w : current_present w → current_present (on_message action w).
Proof.
  intros [Hnd Hin]. unfold on_message.
  set (w1 := if bool_decide (action = Some "skipWaiting") then _ else _).
  assert (caches w1 = caches w) as Hc by (unfold w1; by destruct (bool_decide _)).
  destruct (bool_decide (action = Some "cleanupCache")).
  - unfold then_ at 1. unfold then_ at 1. unfold caches_keys.
    destruct (delete_stale_run (caches w1).*1 w1) as [v ->]. cbn.
    unfold current_present, names. cbn. rewrite Hc. split.
    + eapply sublist_NoDup; [exact Hnd|]. apply fmap_sublist, sublist_filter.
    + unfold names in Hin. apply list_elem_of_fmap in Hin as (c & Hc1 & Hc2).
      apply list_elem_of_fmap. exists c. split; [done|].
      apply list_elem_of_filter. split; [by left|done].
  - unfold current_present, names. by rewrite Hc.
Qed.

Lemma handle_present e w : current_present w → current_present (handle e w).
Proof.
  destruct e; cbn.
  - apply dispatch_fetch_present.
  - unfold current_present, names. by rewrite on_push_caches.
  - apply on_message_present.
Qed.

Lemma install_present w : NoDup (names w) → current_present (fst (install w)).
Proof.
  intros Hnd. destruct (names_open CACHE_NAME w Hnd) as (Hnd' & Hin & _).
  unfold install, current_present, names.
  destruct (fetch_batch (network w) (manifest w)) eqn:E.
  - rewrite (on_install_success _ _ E). cbn. by rewrite names_fold_put.
  - by rewrite (on_install_failure _ E).
Qed.

Lemma filter_current_absent (cs : list (string * gmap string Response)) :
  CACHE_NAME ∉ cs.*1 → (filter (λ c, c.1 = CACHE_NAME) cs).*1 = [].
Proof.
  induction cs as [|[n c] cs IH]; [done|]. rewrite fmap_cons. intros Hl.
  rewrite filter_cons. cbn [fst]. rewrite decide_False.
  - apply IH. intros ?. apply Hl. by right.
  - intros ->. apply Hl. by left.
Qed.

Lemma filter_current (cs : list (string * gmap string Response)) :
  NoDup cs.*1 → CACHE_NAME ∈ cs.*1 → (filter (λ c, c.1 = CACHE_NAME) cs).*1 = [CACHE_NAME].
Proof.
  induction cs as [|[n c] cs IH]; [by intros _ ?%elem_of_nil|].
  rewrite fmap_cons. cbn [fst]. intros [Hnot Hnd]%NoDup_cons Hin. rewrite filter_cons. cbn [fst].
  destruct (decide (n = CACHE_NAME)) as [->|Hne].
  - rewrite fmap_cons. cbn [fst]. f_equal. by apply filter_current_absent.
  - apply IH; [done|]. apply elem_of_cons in Hin as [?|?]; [congruence|done].
Qed.

Lemma activate_names w : current_present w → names (fst (activate w)) = [CACHE_NAME].
Proof.
  intros [Hnd Hin]. unfold activate.
  destruct (on_activate_run w) as (w' & -> & Hc & _). cbn. unfold names. rewrite Hc.
  by apply filter_current.
Qed.

(** C2: when the worker that was installed is activated, whatever events
    it handled in between, exactly one cache generation is left, the one
    named with the current version tag; every generation with another name
    has been deleted. *)
Theorem activate_leaves_current_only (w : World) (events : list Event) :
  NoDup (names w) →
  names (fst (activate (run events (fst (install w))))) = [CACHE_NAME].
Proof.
  intros Hnd. apply activate_names.
  pose proof (install_present w Hnd) as Hp. revert Hp. generalize (fst (install w)).
  unfold run. induction events as [|e events IH]; intros w0 Hp; [done|].
  cbn. apply IH. by apply handle_present.
Qed.

Lemma activate_leaves_current_only_witness :
  NoDup (names Examples.online) ∧
  names (fst (activate (run [EMessage (Some "skipWaiting"); EFetch Examples.asset]
                            (fst (install Examples.online))))) = [CACHE_NAME].
Proof.
  assert (NoDup (names Examples.online)) as Hnd by (apply (bool_decide_unpack _); by vm_compute).
  split; [exact Hnd|].
  exact (activate_leaves_current_only Examples.online
           [EMessage (Some "skipWaiting"); EFetch Examples.asset] Hnd).
Defined.

(** ** Install *)

Lemma fetch_batch_keys net us l : fetch_batch net us = Some l → l.*1 = us.
Proof.
  revert l. induction us as [|u us IH]; intros l; cbn.
  - by intros [= <-].
  - destruct (net "GET" u) as [r|]; [|done]. destruct (ok_status r); [|done].
    destruct (fetch_batch net us) as [l'|]; [|done]. intros [= <-]. cbn.
    by rewrite (IH l').
Qed.

Lemma fold_put_some name (l : list (string * Response)) cs key :
  is_Some (storage_match cs key) →
  is_Some (storage_match (fold_left (λ cs e, storage_put name e.1 e.2 cs) l cs) key).
Proof.
  revert cs. induction l as [|e l IH]; intros cs Hs; [done|].
  cbn. by apply IH, storage_match_put_some.
Qed.

Lemma fold_put_has name (l : list (string * Response)) cs key :
  caches_has cs name = true → key ∈ l.*1 →
  is_Some (storage_match (fold_left (λ cs e, storage_put name e.1 e.2 cs) l cs) key).
Proof.
  revert cs. induction l as [|e l IH]; intros cs Hhas; [by intros ?%elem_of_nil|].
  rewrite fmap_cons. intros [->|Hin]%elem_of_cons; cbn.
  - by apply fold_put_some, storage_match_put_has.
  - apply IH; [|done]. by rewrite (caches_has_names _ cs) by apply names_storage_put.
Qed.

(** After an install in which every manifest fetch succeeded, skipWaiting
    has been requested and every manifest path is answered from the
    caches. *)
Lemma install_success_serves_manifest (w : World) (l : list (string * Response)) (path : string) :
  fetch_batch (network w) (manifest w) = Some l → path ∈ STATIC_ASSETS →
  snd (install w) = installed ∧
  skipWaitingRequested (fst (install w)) = true ∧
  is_Some (storage_match (caches (fst (install w))) (location_origin w +:+ path)).
Proof.
  intros Hl Hpath. unfold install. rewrite (on_install_success _ _ Hl).
  split; [done|]. split; [done|]. cbn.
  destruct (caches_open_run CACHE_NAME w) as (w' & -> & Hhas & _). cbn.
  apply fold_put_has; [done|]. rewrite (fetch_batch_keys _ _ _ Hl).
  unfold manifest. by apply (list_elem_of_fmap_2 (λ p, location_origin w +:+ p)).
Qed.

(** C1 (as amended): when the fetch of a manifest asset fails during
    install, [cache.addAll] writes nothing, so no cache answers differently
    than before and the generations that were present stay present, and
    skipWaiting is not requested; but the [.catch] at the end of the chain
    fulfils the promise handed to [waitUntil], so the install transition
    completes and the worker becomes installed. *)
Theorem install_failure_is_caught (w : World) (path : string) :
  path ∈ STATIC_ASSETS →
  network w "GET" (location_origin w +:+ path) = None →
  snd (install w) = installed ∧
  skipWaitingRequested (fst (install w)) = skipWaitingRequested w ∧
  (∀ key, storage_match (caches (fst (install w))) key = storage_match (caches w) key) ∧
  (∀ name, name ∈ names w → name ∈ names (fst (install w))).
Proof.
  intros Hpath Hnet.
  assert (fetch_batch (network w) (manifest w) = None) as Hfail.
  { apply (fetch_batch_fails _ _ (location_origin w +:+ path)); [|done].
    unfold manifest. by apply (list_elem_of_fmap_2 (λ p, location_origin w +:+ p)). }
  unfold install. rewrite (on_install_failure _ Hfail).
  destruct (caches_open_run CACHE_NAME w) as (w' & -> & _ & Hnames & Hmatch & _ & _ & _ & Hskip).
  cbn. unfold names in *. cbn. split; [done|]. split; [done|]. split; [done|].
  intros name Hin. destruct Hnames as [->|[_ ->]]; [done|]. apply elem_of_app. by left.
Qed.

Lemma install_failure_is_caught_witness :
  "/index.html" ∈ STATIC_ASSETS ∧
  network Examples.offline "GET" (location_origin Examples.offline +:+ "/index.html") = None ∧
  snd (install Examples.offline) = installed ∧
  skipWaitingRequested (fst (install Examples.offline)) = false.
Proof.
  assert ("/index.html" ∈ STATIC_ASSETS) as Hin by (apply (bool_decide_unpack _); by vm_compute).
  split; [exact Hin|]. split; [reflexivity|].
  destruct (install_failure_is_caught Examples.offline "/index.html" Hin eq_refl)
    as (Hstate & Hskip & _).
  split; [exact Hstate|exact Hskip].
Defined.

(** C1, as the specification words it, fails: with every manifest fetch
    failing the install does not abort; the worker is installed, and its
    activation then deletes the previous generation, after which the root
    document is no longer in any cache. *)
Lemma install_survives_failed_fetch :
  "/index.html" ∈ STATIC_ASSETS ∧
  network Examples.offline "GET" (location_origin Examples.offline +:+ "/index.html") = None ∧
  snd (install Examples.offline) ≠ redundant ∧
  names (fst (activate (fst (install Examples.offline)))) = [CACHE_NAME] ∧
  storage_match (caches (fst (activate (fst (install Examples.offline)))))
                (Examples.site +:+ "/index.html") = None.
Proof.
  split; [apply (bool_decide_unpack _); by vm_compute|].
  split; [reflexivity|]. split; [by rewrite install_installed|].
  split; vm_compute; reflexivity.
Qed.

(** ** Fetch *)

Lemma on_fetch_same_origin request w :
  method request = "GET" → origin (url request) = location_origin w →
  on_fetch request w =
    (fst (cache_first request w), mkFetchOutcome (Some (snd (cache_first request w))) None).
Proof.
  intros Hm Ho. unfold on_fetch, on_fetch_with. rewrite Hm, Ho, !String.eqb_refl.
  change (existsb _ DYNAMIC_ASSETS) with false. cbn [negb].
  by destruct (cache_first request w).
Qed.

Lemma storage_put_holds name key r cs :
  caches_has cs name = true →
  ∃ c, (name, c) ∈ storage_put name key r cs ∧ c !! key = Some r.
Proof.
  induction cs as [|[n c] cs IH]; [done|]. rewrite storage_put_cons. cbn.
  destruct (String.eqb n name) eqn:En; cbn.
  - intros _. apply String.eqb_eq in En as ->. exists (<[key := r]> c).
    split; [by left|apply lookup_insert_eq].
  - intros Hhas. destruct (IH Hhas) as (c' & Hin & Hc'). exists c'. split; [by right|done].
Qed.

(** C3: a same-origin GET that is in the caches is answered with the
    cached snapshot and leaves the world, and so the network log, as it
    was; one that is in no cache and that the network answers with a basic
    200 response is answered with that response, which is written under the
    request's key into the current generation, so that the same request is
    answered next with the same response and without a network fetch. *)
Theorem cache_first_then_network (w : World) (request : Request) :
  method request = "GET" → origin (url request) = location_origin w →
  (∀ cached, storage_match (caches w) (key_of request) = Some cached →
     on_fetch request w = (w, responds_with (Some cached))) ∧
  (∀ r, storage_match (caches w) (key_of request) = None →
     network w "GET" (key_of request) = Some r →
     status r = 200%N → type r = basic →
     let w1 := fst (on_fetch request w) in
     snd (on_fetch request w) = responds_with (Some r) ∧
     netlog w1 = netlog w ++ [key_of request] ∧
     (∃ c, (CACHE_NAME, c) ∈ caches w1 ∧ c !! key_of request = Some r) ∧
     on_fetch request w1 = (w1, responds_with (Some r))).
Proof.
  intros Hm Ho. split.
  - intros cached Hhit. rewrite (on_fetch_same_origin _ _ Hm Ho).
    by rewrite (cache_first_hit _ _ _ Hhit).
  - intros r Hmiss Hnet Hs Ht. rewrite <- Hm in Hnet.
    rewrite (on_fetch_same_origin _ _ Hm Ho).
    rewrite (cache_first_miss_cacheable _ _ _ Hmiss Hnet Hs Ht). cbn zeta. cbn [fst snd].
    destruct (caches_open_run CACHE_NAME (log_fetch [key_of request] w))
      as (w' & Hopen & Hhas & _ & Hmatch & Ho' & _ & Hlog & _).
    assert (storage_match (caches (cached_after request r w)) (key_of request) = Some r) as Hnow.
    { unfold cached_after. rewrite Hopen. cbn.
      apply storage_match_put_fresh; [done|]. by rewrite Hmatch. }
    split; [done|]. split; [|split].
    + unfold cached_after. rewrite Hopen. cbn. by rewrite Hlog.
    + unfold cached_after. rewrite Hopen. cbn. by apply storage_put_holds.
    + rewrite on_fetch_same_origin; [|done|].
      * by rewrite (cache_first_hit _ _ _ Hnow).
      * unfold cached_after. rewrite Hopen. cbn. by rewrite Ho', Ho.
Qed.

Lemma cache_first_then_network_witness :
  method Examples.asset = "GET" ∧
  origin (url Examples.asset) = location_origin Examples.online ∧
  on_fetch Examples.asset (fst (on_fetch Examples.asset Examples.online))
  = (fst (on_fetch Examples.asset Examples.online),
     responds_with (Some (mkResponse 200 basic (key_of Examples.asset)))).
Proof.
  split; [reflexivity|]. split; [reflexivity|].
  destruct (cache_first_then_network Examples.online Examples.asset eq_refl eq_refl)
    as [_ Hmiss].
  destruct (Hmiss (mkResponse 200 basic (key_of Examples.asset)))
    as (_ & _ & _ & Hagain); [by vm_compute|reflexivity|reflexivity|reflexivity|].
  exact Hagain.
Defined.

(** C4: a same-origin GET that is in no cache, whose network fetch fails
    and whose Accept header includes text/html, is answered with the root
    document the caches hold. *)
Theorem offline_navigation_gets_root (w : World) (request : Request)
    (a : string) (root : Response) :
  method request = "GET" → origin (url request) = location_origin w →
  storage_match (caches w) (key_of request) = None →
  network w "GET" (key_of request) = None →
  accept request = Some a → includes a "text/html" = true →
  storage_match (caches w) (location_origin w +:+ "/index.html") = Some root →
  snd (on_fetch request w) = responds_with (Some root).
Proof.
  intros Hm Ho Hmiss Hnet Ha Hhtml Hroot. rewrite <- Hm in Hnet.
  rewrite (on_fetch_same_origin _ _ Hm Ho), (cache_first_offline _ _ Hmiss Hnet).
  cbn. by rewrite Ha, Hhtml, Hroot.
Qed.

Lemma offline_navigation_gets_root_witness :
  method Examples.page = "GET" ∧
  accept Examples.page = Some "text/html,application/xhtml+xml" ∧
  network Examples.offline "GET" (key_of Examples.page) = None ∧
  snd (on_fetch Examples.page Examples.offline) = responds_with (Some Examples.old_index).
Proof.
  split; [reflexivity|]. split; [reflexivity|]. split; [reflexivity|].
  apply (offline_navigation_gets_root Examples.offline Examples.page
           "text/html,application/xhtml+xml" Examples.old_index);
    try reflexivity; by vm_compute.
Defined.

Lemma bypass_passes_through (bypass : list string) (request : Request) (w : World) :
  method request ≠ "GET" ∨
  existsb (λ asset, includes (pathname (url request)) asset) bypass = true →
  on_fetch_with bypass request w = (w, passthrough).
Proof.
  intros Hby. unfold on_fetch_with.
  destruct (String.eqb_spec (method request) "GET") as [Hget|Hne]; [|done].
  cbn. destruct Hby as [Hne| ->]; [done|done].
Qed.

(** A request whose URL does not contain external-domain.com only
    concerns the caching listener. *)
Lemma dispatch_is_on_fetch (request : Request) (w : World) :
  includes (href (url request)) "external-domain.com" = false →
  dispatch_fetch request w = on_fetch request w.
Proof.
  intros Hext. unfold dispatch_fetch, dispatch_fetch_with, on_fetch.
  destruct (on_fetch_with DYNAMIC_ASSETS request w) as [w1 o1].
  unfold on_fetch_external. by rewrite Hext.
Qed.

(** C5: a request that is not a GET, or whose path contains an entry of
    the bypass list, is left alone by the caching listener (it does not
    call [respondWith] and changes nothing), and no listener of the fetch
    event writes a cache entry for it. *)
Theorem bypassed_request_is_never_cached (bypass : list string) (request : Request) (w : World) :
  method request ≠ "GET" ∨
  existsb (λ asset, includes (pathname (url request)) asset) bypass = true →
  on_fetch_with bypass request w = (w, passthrough) ∧
  caches (fst (dispatch_fetch_with bypass request w)) = caches w.
Proof.
  intros Hby. split; [by apply bypass_passes_through|].
  unfold dispatch_fetch_with. rewrite (bypass_passes_through _ _ _ Hby).
  apply on_fetch_external_caches.
Qed.

Lemma bypassed_request_is_never_cached_witness :
  method Examples.api_post ≠ "GET" ∧
  on_fetch_with ["/api/"] Examples.api_post Examples.online = (Examples.online, passthrough) ∧
  caches (fst (dispatch_fetch_with ["/api/"] Examples.api_post Examples.online))
  = caches Examples.online.
Proof.
  assert (method Examples.api_post ≠ "GET") as Hne by (by vm_compute).
  split; [exact Hne|].
  exact (bypassed_request_is_never_cached ["/api/"] Examples.api_post Examples.online
           (or_introl Hne)).
Defined.

(** With the bypass list of sw.js, which is empty, only the method
    decides. *)
Lemma non_get_is_passed_through (request : Request) (w : World) :
  method request ≠ "GET" →
  on_fetch request w = (w, passthrough) ∧ caches (fst (dispatch_fetch request w)) = caches w.
Proof.
  intros Hne. split; [apply bypass_passes_through; by left|].
  unfold dispatch_fetch, dispatch_fetch_with.
  rewrite (bypass_passes_through _ _ _ (or_introl Hne)).
  apply on_fetch_external_caches.
Qed.

(** ** Push *)

(** Without a payload, or with a payload that is a JSON object, exactly one
    notification is shown; each of title, body and icon is the payload's
    when that is truthy and the default otherwise. *)
Lemma push_shows_one_notification (w : World) (fields : list (string * Json)) :
  shown (fst (on_push None w)) = shown w ++ [default_options] ∧
  snd (on_push None w) = None ∧
  snd (on_push (Some (JsonPayload (JObj fields))) w) = None ∧
  ∃ t b i,
    get_property (JObj fields) "title" = inr t ∧
    get_property (JObj fields) "body" = inr b ∧
    get_property (JObj fields) "icon" = inr i ∧
    shown (fst (on_push (Some (JsonPayload (JObj fields))) w)) =
      shown w ++ [mkNotification (or_default t default_title)
                                 (or_default b (nbody default_options))
                                 (or_default i (nicon default_options))
                                 (nbadge default_options)].
Proof. repeat split. by eexists _, _, _. Qed.

(** C6 fails on a payload that is not JSON, and on the JSON payload
    [null]: the listener throws before [showNotification] is reached, no
    default is substituted and no notification is shown. *)
Theorem malformed_push_payload_throws (w : World) (text : string) :
  on_push (Some (TextPayload text)) w = (w, Some SyntaxError) ∧
  on_push (Some (JsonPayload JNull)) w = (w, Some TypeError).
Proof. done. Qed.

(** C7 fails: exceptions leave the listeners.  A push whose payload is not
    JSON throws a SyntaxError out of the push listener; a failed fetch for
    a request without an Accept header rejects the promise handed to
    [respondWith] with the TypeError thrown inside the [.catch] handler; a
    same-origin GET whose URL contains external-domain.com makes the second
    fetch listener throw an InvalidStateError. *)
Theorem exceptions_escape_the_listeners :
  snd (on_push (Some (TextPayload "{title:")) Examples.online) = Some SyntaxError ∧
  responded (snd (on_fetch Examples.headerless Examples.offline)) = Some (Rejected TypeError) ∧
  thrown (snd (dispatch_fetch Examples.mirrored Examples.online)) = Some InvalidStateError.
Proof. split; [done|]. split; by vm_compute. Qed.

(** The TypeError of the Accept read, for every such request. *)
Lemma headerless_offline_fetch_rejects (w : World) (request : Request) :
  method request = "GET" → origin (url request) = location_origin w →
  storage_match (caches w) (key_of request) = None →
  network w "GET" (key_of request) = None →
  accept request = None →
  snd (on_fetch request w) = mkFetchOutcome (Some (Rejected TypeError)) None.
Proof.
  intros Hm Ho Hmiss Hnet Ha. rewrite <- Hm in Hnet.
  rewrite (on_fetch_same_origin _ _ Hm Ho), (cache_first_offline _ _ Hmiss Hnet).
  cbn. by rewrite Ha.
Qed.

(** * The persistence store *)

Import Storage.

Section StoreFacts.
Context {K : Type} `{Countable K} `{KeyOrder K} {V : Type}.
Implicit Types (m : gmap K V) (l : list (K * V)).

Lemma rows_Permutation m : rows m ≡ₚ map_to_list m.
Proof. apply merge_sort_Permutation. Qed.

Lemma elem_of_rows m k v : (k, v) ∈ rows m ↔ m !! k = Some v.
Proof. by rewrite rows_Permutation, elem_of_map_to_list. Qed.

Lemma elem_of_rows_keys m k : k ∈ (rows m).*1 ↔ is_Some (m !! k).
Proof.
  rewrite list_elem_of_fmap. split.
  - intros ([k' v] & -> & Hin). apply elem_of_rows in Hin. by exists v.
  - intros [v Hv]. exists (k, v). split; [done|]. by apply elem_of_rows.
Qed.

Lemma NoDup_rows_keys m : NoDup (rows m).*1.
Proof. rewrite rows_Permutation. apply NoDup_fst_map_to_list. Qed.

Lemma list_to_map_rows m : list_to_map (rows m) = m.
Proof.
  rewrite <- (list_to_map_to_list m) at 2.
  apply list_to_map_proper; [apply NoDup_rows_keys|apply rows_Permutation].
Qed.

(** One [await store.add(row);] in a transaction. *)
Lemma await_add_run (row : K * V) (t : option (gmap K V)) :
  await_add row t =
    (m ← t; match m !! row.1 with
            | Some _ => None
            | None => Some (<[row.1 := row.2]> m)
            end, Fulfilled tt).
Proof.
  unfold await_add, then_, store_add, place_request, resolve.
  destruct t as [m|]; [|done]. cbn. by destruct (m !! row.1).
Qed.

(** In an aborted transaction nothing is added any more. *)
Lemma for_of_add_aborted l : for_of l await_add (None : option (gmap K V)) = (None, Fulfilled tt).
Proof.
  induction l as [|row l IH]; [done|].
  cbn [for_of]. unfold then_ at 1. by rewrite await_add_run.
Qed.

(** Adding rows with fresh, pairwise distinct keys stores every one of
    them. *)
Lemma for_of_add_fresh l m :
  NoDup l.*1 → (∀ k, k ∈ l.*1 → m !! k = None) →
  for_of l await_add (Some m) = (Some (m ∪ list_to_map l), Fulfilled tt).
Proof.
  revert m. induction l as [|[k v] l IH]; intros m Hnd Hfresh.
  - cbn. unfold resolve. by rewrite (right_id_L ∅ (∪)).
  - rewrite fmap_cons in Hnd, Hfresh. cbn [fst] in *.
    apply NoDup_cons in Hnd as [Hk Hnd].
    cbn [for_of]. unfold then_ at 1. rewrite await_add_run. cbn.
    rewrite (Hfresh k) by (by left). rewrite IH; [|done|].
    + f_equal. f_equal.
      rewrite <- insert_union_l. rewrite insert_union_r; [done|].
      apply Hfresh. by left.
    + intros k' Hk'. rewrite lookup_insert_ne; [apply Hfresh; by right|].
      intros ->. done.
Qed.

(** One key that is stored already, or that occurs twice among the rows,
    aborts the transaction. *)
Lemma for_of_add_clash l m :
  ¬ (NoDup l.*1 ∧ ∀ k, k ∈ l.*1 → m !! k = None) →
  for_of l await_add (Some m) = (None, Fulfilled tt).
Proof.
  revert m. induction l as [|[k v] l IH]; intros m Hbad.
  - destruct Hbad. split; [constructor|]. by intros k ?%elem_of_nil.
  - cbn [for_of]. unfold then_ at 1. rewrite await_add_run. cbn.
    destruct (m !! k) eqn:E; [apply for_of_add_aborted|].
    apply IH. intros [Hnd Hfresh]. apply Hbad.
    rewrite fmap_cons. cbn [fst]. split.
    + apply NoDup_cons. split; [|done]. intros Hin.
      specialize (Hfresh k Hin). by rewrite lookup_insert_eq in Hfresh.
    + intros k' [->|Hin]%elem_of_cons; [done|].
      specialize (Hfresh k' Hin). destruct (decide (k = k')) as [->|Hne].
      * by rewrite lookup_insert_eq in Hfresh.
      * by rewrite lookup_insert_ne in Hfresh.
Qed.

Lemma for_of_add_empty l :
  NoDup l.*1 → for_of l await_add (Some (∅ : gmap K V)) = (Some (list_to_map l), Fulfilled tt).
Proof.
  intros Hnd. rewrite for_of_add_fresh; [|done|].
  - by rewrite (left_id_L ∅ (∪)).
  - intros. apply lookup_empty.
Qed.

Lemma for_of_add_repeated l :
  ¬ NoDup l.*1 → for_of l await_add (Some (∅ : gmap K V)) = (None, Fulfilled tt).
Proof. intros Hdup. apply for_of_add_clash. by intros [? _]. Qed.

End StoreFacts.

Lemma for_of_fmap {S A B} (f : A → B) (l : list A) (body : B → Promise S unit) s :
  for_of (f <$> l) body s = for_of l (λ x, body (f x)) s.
Proof.
  revert s. induction l as [|x l IH]; intros s; [done|].
  cbn. unfold then_. destruct (body (f x) s) as [s' [[]|e]]; [apply IH|done].
Qed.

Lemma for_of_app {S A} (l1 l2 : list A) (body : A → Promise S unit) s :
  for_of (l1 ++ l2) body s = then_ (for_of l1 body) (λ _, for_of l2 body) s.
Proof.
  revert s. induction l1 as [|x l1 IH]; intros s; [done|].
  cbn. unfold then_. destruct (body x s) as [s' [[]|e]]; [|done].
  rewrite IH. done.
Qed.

Lemma for_of_concat {S A B} (f : A → list B) (l : list A) (body : B → Promise S unit) s :
  for_of l (λ x, for_of (f x) body) s = for_of (concat (f <$> l)) body s.
Proof.
  revert s. induction l as [|x l IH]; intros s; [done|].
  cbn. rewrite for_of_app. unfold then_. destruct (for_of (f x) body s) as [s' [[]|e]]; [apply IH|done].
Qed.

Lemma concat_Permutation {A} (l1 l2 : list (list A)) : l1 ≡ₚ l2 → concat l1 ≡ₚ concat l2.
Proof.
  induction 1 as [|x l1 l2 _ IH|x y l|l1 l2 l3 _ IH1 _ IH2]; cbn.
  - done.
  - by rewrite IH.
  - rewrite !(assoc_L (++)). by rewrite (comm (++) y x).
  - by etrans.
Qed.

(** *** Grouping notes by resource *)

Lemma group_note_insert g note :
  group_note g note =
    <[resourceId note.2 := default [] (g !! resourceId note.2) ++ [note]]> g.
Proof.
  unfold group_note. destruct (g !! resourceId note.2) as [l|] eqn:E.
  - by rewrite E.
  - rewrite lookup_insert_eq. cbn. by rewrite insert_insert_eq.
Qed.

Lemma flat_group_note g note : flat (group_note g note) ≡ₚ flat g ++ [note].
Proof.
  rewrite group_note_insert. unfold flat.
  destruct (g !! resourceId note.2) as [l|] eqn:E; cbn [default].
  - rewrite <- insert_delete_eq.
    rewrite (concat_Permutation _ _
      (fmap_Permutation snd _ _ (map_to_list_insert _ _ _ (lookup_delete_eq g _)))).
    rewrite <- (concat_Permutation _ _
      (fmap_Permutation snd _ _ (map_to_list_delete g _ _ E))).
    cbn. rewrite <- !(assoc_L (++)). apply Permutation_app_head, Permutation_app_comm.
  - rewrite (concat_Permutation _ _
      (fmap_Permutation snd _ _ (map_to_list_insert g _ _ E))).
    cbn. apply Permutation_cons_append.
Qed.

Lemma flat_fold_group l g : flat (fold_left group_note l g) ≡ₚ flat g ++ l.
Proof.
  revert g. induction l as [|note l IH]; intros g; cbn.
  - by rewrite (right_id_L [] (++)).
  - rewrite IH, flat_group_note. by rewrite <- (assoc_L (++)).
Qed.

Lemma flat_rows (g : gmap N (list Note)) : concat (snd <$> rows g) ≡ₚ flat g.
Proof. apply concat_Permutation, fmap_Permutation, rows_Permutation. Qed.

#[local] Instance N_rows_trans {V} : Transitive (λ a b : N * V, Is_true (key_leb a.1 b.1)).
Proof.
  intros a b c. unfold key_leb, N_key_order. rewrite !Is_true_true, !N.leb_le. lia.
Qed.

#[local] Instance N_rows_total {V} : Total (λ a b : N * V, Is_true (key_leb a.1 b.1)).
Proof.
  intros a b. unfold key_leb, N_key_order. rewrite !Is_true_true, !N.leb_le. lia.
Qed.

(** *** The functions of the class, run *)

Lemma clearAllData_run db : clearAllData db = (empty_db, Fulfilled tt).
Proof. done. Qed.

Lemma addFavorite_run now x db :
  addFavorite now x db =
    (match favorites db !! x with
     | Some _ => db
     | None => set_favorites (<[x := now]> (favorites db)) db
     end, Fulfilled tt).
Proof.
  unfold addFavorite, in_favorites, objectStore. rewrite await_add_run. cbn.
  by destruct (favorites db !! x).
Qed.

Lemma removeFavorite_run x db :
  removeFavorite x db = (set_favorites (delete x (favorites db)) db, Fulfilled tt).
Proof. done. Qed.

Lemma getFavorites_run db : getFavorites db = (db, Rejected TypeError).
Proof. by destruct db. Qed.

Lemma getAllNotes_run db : getAllNotes db = (db, Rejected TypeError).
Proof. by destruct db. Qed.

Lemma getAllResources_run db :
  getAllResources db = (db, Fulfilled (RequestObject (mkIDBRequest (Some (rows (resources db)))))).
Proof. by destruct db. Qed.

(** C8 fails on every database: the store does hold [x] after
    [addFavorite(x)] and does not after [removeFavorite(x)], but
    [getFavorites()] has no result to include [x] in.  It awaits the
    [IDBRequest] of [store.getAll()], which is handed back as it is, and
    calls [map] on it: the promise is rejected with a TypeError. *)
Theorem getFavorites_rejects (now : string) (x : N) (db : IDBDatabase) :
  snd (getFavorites (fst (addFavorite now x db))) = Rejected TypeError ∧
  snd (getFavorites (fst (removeFavorite x db))) = Rejected TypeError ∧
  is_Some (favorites (fst (addFavorite now x db)) !! x) ∧
  favorites (fst (removeFavorite x db)) !! x = None.
Proof.
  rewrite !getFavorites_run, addFavorite_run, removeFavorite_run. cbn.
  split; [done|]. split; [done|]. split.
  - destruct (favorites db !! x) as [d|] eqn:E; cbn.
    + by rewrite E.
    + by rewrite lookup_insert_eq.
  - apply lookup_delete_eq.
Qed.

(** C9 fails on every database: [exportData()] produces no snapshot.  It
    is rejected with the TypeError of [getFavorites()], and the database is
    as it was; [getAllNotes()], which it would call next, is rejected in
    the same way. *)
Theorem exportData_rejects (db : IDBDatabase) :
  exportData db = (db, Rejected TypeError) ∧
  getAllNotes db = (db, Rejected TypeError).
Proof.
  split; [|apply getAllNotes_run].
  unfold exportData. unfold then_ at 1. rewrite getAllResources_run.
  unfold then_ at 1. by rewrite getFavorites_run.
Qed.

(** *** Importing *)

Import Backups.

Lemma then_cong {S A B} (p p' : Promise S A) (f g : A → Promise S B) s :
  (∀ s', p s' = p' s') → (∀ a s', f a s' = g a s') → then_ p f s = then_ p' g s.
Proof.
  intros Hp Hfg. unfold then_. rewrite Hp.
  destruct (p' s) as [s' [a|e]]; [apply Hfg|done].
Qed.

Lemma importData_sections now data db :
  importData now data db =
    (await_ import_section resources set_resources (data_resources data) in
     await_ import_section favorites set_favorites (favorite_rows now <$> data_favorites data) in
     await_ import_section notes set_notes (note_rows <$> data_notes data) in
     await_ import_section downloads set_downloads (data_downloads data) in
     import_section settings set_settings (data_settings data)) empty_db.
Proof.
  unfold importData. unfold then_ at 1. rewrite clearAllData_run.
  apply then_cong; [done|]. intros _ s1.
  apply then_cong.
  { intros s. unfold import_section, favorite_rows.
    destruct (data_favorites data) as [fs|]; [|done].
    cbn. unfold in_favorites, objectStore. by rewrite for_of_fmap. }
  intros _ s2. apply then_cong.
  { intros s. unfold import_section, note_rows. destruct (data_notes data) as [ns|]; [|done].
    cbn. unfold in_notes, objectStore, for_in.
    by rewrite (for_of_concat snd (rows ns) await_add). }
  intros _ s3. by apply then_cong.
Qed.

(** A section is always fulfilled; in a store that is empty it leaves its
    rows, or nothing when a key occurs twice among them. *)
Lemma import_section_run {K V : Type} `{Countable K}
    (get : IDBDatabase → gmap K V) (set : gmap K V → IDBDatabase → IDBDatabase)
    (field : option (list (K * V))) (db : IDBDatabase) :
  get db = ∅ → set ∅ db = db →
  import_section get set field db = (set (stored field) db, Fulfilled tt).
Proof.
  intros Hempty Hset. destruct field as [l|]; cbn; [|by rewrite Hset].
  unfold objectStore. rewrite Hempty. destruct (decide (NoDup l.*1)) as [Hnd|Hdup].
  - by rewrite for_of_add_empty.
  - rewrite for_of_add_repeated by done. by rewrite Hset.
Qed.

Lemma importData_run now data db :
  importData now data db =
    (mkDB (stored (data_resources data))
          (stored (favorite_rows now <$> data_favorites data))
          (stored (note_rows <$> data_notes data))
          (stored (data_downloads data))
          (stored (data_settings data)), Fulfilled tt).
Proof.
  rewrite importData_sections.
  unfold then_ at 1. rewrite import_section_run by done.
  unfold then_ at 1. rewrite import_section_run by done.
  unfold then_ at 1. rewrite import_section_run by done.
  unfold then_ at 1. rewrite import_section_run by done.
  by rewrite import_section_run.
Qed.

(** C10: [importData] clears all five stores before it inserts anything:
    its outcome does not depend on what the store held; a store whose
    field is missing from the backup is left empty, and importing the
    empty backup leaves the whole database empty. *)
Theorem import_clears_first (now : string) (data : Backup) (db : IDBDatabase) :
  importData now data db = importData now data empty_db ∧
  (data_resources data = None → resources (fst (importData now data db)) = ∅) ∧
  (data_favorites data = None → favorites (fst (importData now data db)) = ∅) ∧
  (data_notes data = None → notes (fst (importData now data db)) = ∅) ∧
  (data_downloads data = None → downloads (fst (importData now data db)) = ∅) ∧
  (data_settings data = None → settings (fst (importData now data db)) = ∅) ∧
  importData now empty_backup db = (empty_db, Fulfilled tt).
Proof.
  rewrite !importData_run. cbn [fst resources favorites notes downloads settings].
  split; [done|].
  split; [by intros ->|]. split; [by intros ->|]. split; [by intros ->|].
  split; [by intros ->|]. split; [by intros ->|]. done.
Qed.

Lemma import_clears_first_witness :
  data_resources Examples.partial_backup = None ∧
  resources (fst (importData "2023-03-20T08:00:00.000Z" Examples.partial_backup
                             Examples.study_db)) = ∅ ∧
  importData "2023-03-20T08:00:00.000Z" empty_backup Examples.study_db
  = (empty_db, Fulfilled tt).
Proof.
  destruct (import_clears_first "2023-03-20T08:00:00.000Z" Examples.partial_backup
              Examples.study_db) as (_ & Hres & _ & _ & _ & _ & _).
  destruct (import_clears_first "2023-03-20T08:00:00.000Z" empty_backup
              Examples.study_db) as (_ & _ & _ & _ & _ & _ & Hempty).
  split; [reflexivity|]. split; [exact (Hres eq_refl)|exact Hempty].
Defined.

(** * The rest of the code *)

(** ** The schema upgrade *)

Lemma contains_spec (db : gmap string Schema.ObjectStoreSchema) name :
  Schema.contains db name = true ↔ is_Some (db !! name).
Proof. unfold Schema.contains. apply bool_decide_eq_true. Qed.

Lemma ensure_store (db : gmap string Schema.ObjectStoreSchema) name path :
  (if Schema.contains db name then db else Schema.createObjectStore name path db)
  = db ∪ {[name := Schema.mkObjectStore path ∅]}.
Proof.
  destruct (Schema.contains db name) eqn:E.
  - apply contains_spec in E as [s Hs]. by rewrite (union_singleton_r _ _ s).
  - apply not_true_iff_false in E. rewrite contains_spec, <- eq_None_not_Some in E.
    by apply insert_union_singleton_r.
Qed.

Lemma ensure_indexed_store (db : gmap string Schema.ObjectStoreSchema) name path i1 p1 i2 p2 :
  (if Schema.contains db name then db
   else Schema.createIndex name i2 p2
          (Schema.createIndex name i1 p1 (Schema.createObjectStore name path db)))
  = db ∪ {[name := Schema.mkObjectStore path (<[i2 := p2]> (<[i1 := p1]> ∅))]}.
Proof.
  destruct (Schema.contains db name) eqn:E.
  - apply contains_spec in E as [s Hs]. by rewrite (union_singleton_r _ _ s).
  - apply not_true_iff_false in E. rewrite contains_spec, <- eq_None_not_Some in E.
    unfold Schema.createIndex, Schema.createObjectStore.
    rewrite !alter_insert_eq. cbn. by apply insert_union_singleton_r.
Qed.

(** The upgrade of a database is its union with the upgrade of an empty
    one, the stores already present taking precedence. *)
Lemma upgrade_union (db : gmap string Schema.ObjectStoreSchema) :
  Schema.onupgradeneeded db = db ∪ Schema.onupgradeneeded ∅.
Proof.
  unfold Schema.onupgradeneeded. cbv zeta.
  rewrite !ensure_store, !ensure_indexed_store.
  rewrite (left_id_L ∅ (∪)). by rewrite !(assoc_L (∪)).
Qed.

(** X1: the upgrade listener of [init] only adds: every object store the
    database has keeps its key path and indexes, afterwards the database
    has its old stores and the five stores of the schema, and running the
    upgrade again changes nothing. *)
Theorem upgrade_is_additive (db : gmap string Schema.ObjectStoreSchema) :
  (∀ name s, db !! name = Some s → Schema.onupgradeneeded db !! name = Some s) ∧
  dom (Schema.onupgradeneeded db) = dom db ∪ Schema.store_names ∧
  Schema.onupgradeneeded (Schema.onupgradeneeded db) = Schema.onupgradeneeded db.
Proof.
  split; [|split].
  - intros name s Hs. rewrite upgrade_union. by apply lookup_union_Some_l.
  - rewrite upgrade_union, dom_union_L. by f_equal.
  - rewrite (upgrade_union (Schema.onupgradeneeded db)), (upgrade_union db).
    by rewrite <- (assoc_L (∪)), (map_union_idemp (Schema.onupgradeneeded ∅)).
Qed.

(** ** Favorites *)

(** X2: [isFavorite] answers [true] for every id on every database,
    favorite or not: what it turns into a boolean is the [IDBRequest] of
    [store.get], an object. *)
Theorem isFavorite_is_true_for_every_id (x : N) (db : IDBDatabase) :
  isFavorite x db = (db, Fulfilled true).
Proof. by destruct db. Qed.

(** X3: adding a favorite a second time is fulfilled like the first time
    and changes nothing: the failed request aborts its transaction unseen,
    and the favorite keeps the date of the first call. *)
Theorem addFavorite_again_changes_nothing (now1 now2 : string) (x : N) (db : IDBDatabase) :
  addFavorite now2 x (fst (addFavorite now1 x db))
  = (fst (addFavorite now1 x db), Fulfilled tt).
Proof.
  rewrite (addFavorite_run now1).
  destruct (favorites db !! x) as [d|] eqn:E; cbn [fst].
  - by rewrite addFavorite_run, E.
  - rewrite addFavorite_run. cbn. by rewrite lookup_insert_eq.
Qed.

(** X4: removing a favorite that was just added gives the database back
    as it was, and removing one that is not there is fulfilled and changes
    nothing. *)
Theorem removeFavorite_undoes_addFavorite (now : string) (x : N) (db : IDBDatabase) :
  favorites db !! x = None →
  removeFavorite x (fst (addFavorite now x db)) = (db, Fulfilled tt) ∧
  removeFavorite x db = (db, Fulfilled tt).
Proof.
  intros Hx. split.
  - rewrite addFavorite_run, Hx, removeFavorite_run. cbn.
    rewrite delete_insert_eq, delete_id by done. by destruct db.
  - rewrite removeFavorite_run, delete_id by done. by destruct db.
Qed.

Lemma removeFavorite_undoes_addFavorite_witness :
  favorites Examples.study_db !! 4%N = None ∧
  removeFavorite 4 (fst (addFavorite "2023-03-20T08:00:00.000Z" 4 Examples.study_db))
  = (Examples.study_db, Fulfilled tt).
Proof.
  split; [reflexivity|].
  exact (proj1 (removeFavorite_undoes_addFavorite "2023-03-20T08:00:00.000Z" 4%N
                  Examples.study_db eq_refl)).
Defined.

(** ** Downloads and settings *)

Lemma getDownloads_run db :
  getDownloads db = (db, Fulfilled (RequestObject (mkIDBRequest (Some (rows (downloads db)))))).
Proof. by destruct db. Qed.

Lemma addDownload_run download db :
  addDownload download db =
    (match downloads db !! download.1 with
     | Some _ => db
     | None => set_downloads (<[download.1 := download.2]> (downloads db)) db
     end, Fulfilled tt).
Proof.
  unfold addDownload, in_downloads, objectStore. rewrite await_add_run. cbn.
  by destruct (downloads db !! download.1).
Qed.

Lemma updateDownload_run download db :
  updateDownload download db =
    (set_downloads (<[download.1 := download.2]> (downloads db)) db, Fulfilled tt).
Proof. done. Qed.

(** X5: [getDownloads] is fulfilled with the request of [store.getAll()],
    not with a list.  After [addDownload] and then [updateDownload] of a
    record with the same id, whether or not the id was stored before, the
    result of that request lists every id once: the updated record under
    that id, and the records of the other ids as they were. *)
Theorem updateDownload_replaces_the_record (id : N) (d0 d1 : DownloadData) (db : IDBDatabase) :
  let db' := fst (updateDownload (id, d1) (fst (addDownload (id, d0) db))) in
  ∃ request l,
    getDownloads db' = (db', Fulfilled (RequestObject request)) ∧
    result request = Some l ∧
    NoDup l.*1 ∧
    ∀ k d, (k, d) ∈ l ↔ (k = id ∧ d = d1) ∨ (k ≠ id ∧ (k, d) ∈ rows (downloads db)).
Proof.
  cbn zeta. eexists _, _. split; [apply getDownloads_run|]. split; [reflexivity|].
  split; [apply NoDup_rows_keys|].
  intros k d. rewrite !elem_of_rows, updateDownload_run, addDownload_run.
  cbn [fst snd].
  destruct (downloads db !! id) as [d'|] eqn:E; cbn [fst snd downloads set_downloads].
  - destruct (decide (k = id)) as [->|Hne].
    + rewrite lookup_insert_eq. intuition congruence.
    + rewrite lookup_insert_ne by done. intuition congruence.
  - rewrite insert_insert_eq. destruct (decide (k = id)) as [->|Hne].
    + rewrite lookup_insert_eq. intuition congruence.
    + rewrite lookup_insert_ne by done. intuition congruence.
Qed.

(** X6: [saveSetting] stores the value under the key, overwriting what
    was there and nothing else, yet [getSetting] gives [undefined] for
    every key, the one just saved too: it reads [value] off the
    [IDBRequest] of [store.get]. *)
Theorem getSetting_is_undefined_for_every_key (key key' value : string) (db : IDBDatabase) :
  let db' := fst (saveSetting key value db) in
  settings db' !! key = Some value ∧
  (key' ≠ key → settings db' !! key' = settings db !! key') ∧
  getSetting key db' = (db', Fulfilled None) ∧
  getSetting key' db = (db, Fulfilled None).
Proof.
  cbn. split; [apply lookup_insert_eq|]. split; [intros Hne; by apply lookup_insert_ne|].
  split; [done|by destruct db].
Qed.

(** ** Notes *)

Lemma getNotes_run rid db :
  getNotes rid db =
    (db, Fulfilled (RequestObject (mkIDBRequest
           (Some (filter (λ note : Note, resourceId note.2 = rid) (rows (notes db))))))).
Proof. by destruct db. Qed.

Lemma StronglySorted_filter {A} (R : relation A) (P : A → Prop) `{∀ x, Decision (P x)} l :
  StronglySorted R l → StronglySorted R (filter P l).
Proof.
  induction 1 as [|x l Hl IH Hx]; [constructor|].
  rewrite filter_cons. destruct (decide (P x)); [|done].
  constructor; [done|]. apply Forall_forall. intros y [_ Hy]%list_elem_of_filter.
  by eapply Forall_forall in Hx.
Qed.

Lemma StronglySorted_weaken {A} (R R' : relation A) l :
  (∀ a b, R a b → R' a b) → StronglySorted R l → StronglySorted R' l.
Proof.
  intros HR. induction 1 as [|x l Hl IH Hx]; constructor; [done|].
  eapply Forall_impl; [exact Hx|]. intros y. apply HR.
Qed.

(** X7: [getNotes] is fulfilled with the request of [index.getAll], whose
    result lists exactly the notes of the resource, in ascending order of
    their ids; [getAllNotes] is rejected with a TypeError on every
    database, because it calls [forEach] on a request. *)
Theorem getNotes_holds_a_request_and_getAllNotes_rejects (rid : N) (db : IDBDatabase) :
  getAllNotes db = (db, Rejected TypeError) ∧
  ∃ request l,
    getNotes rid db = (db, Fulfilled (RequestObject request)) ∧
    result request = Some l ∧
    StronglySorted (λ a b : Note, (a.1 ≤ b.1)%N) l ∧
    ∀ k d, (k, d) ∈ l ↔ notes db !! k = Some d ∧ resourceId d = rid.
Proof.
  split; [apply getAllNotes_run|].
  eexists _, _. split; [apply getNotes_run|]. split; [reflexivity|]. split.
  - apply StronglySorted_filter.
    apply (StronglySorted_weaken (λ a b : Note, Is_true (key_leb a.1 b.1)));
      [|apply StronglySorted_merge_sort; apply _].
    intros a b. unfold key_leb, N_key_order. by rewrite Is_true_true, N.leb_le.
  - intros k d. rewrite list_elem_of_filter, elem_of_rows. cbn. tauto.
Qed.

(** Deleting a key removes its row from the listing and leaves the other
    rows in their order. *)
Lemma rows_delete {V} (k : N) (m : gmap N V) :
  rows (delete k m) = filter (λ r, r.1 ≠ k) (rows m).
Proof.
  apply (StronglySorted_unique_strong (λ a b : N * V, Is_true (key_leb a.1 b.1))).
  - intros [k1 v1] [k2 v2] H1 [_ H2]%list_elem_of_filter Hle1 Hle2.
    apply elem_of_rows in H1, H2. apply lookup_delete_Some in H1 as [_ H1].
    unfold key_leb, N_key_order in *. cbn in *.
    apply Is_true_true, N.leb_le in Hle1, Hle2.
    assert (k1 = k2) as -> by lia. congruence.
  - apply StronglySorted_merge_sort; apply _.
  - apply StronglySorted_filter, StronglySorted_merge_sort; apply _.
  - apply NoDup_Permutation.
    + eapply NoDup_fmap_1, NoDup_rows_keys.
    + apply NoDup_filter. eapply NoDup_fmap_1, NoDup_rows_keys.
    + intros [k' v]. rewrite list_elem_of_filter, !elem_of_rows, lookup_delete_Some. cbn.
      intuition congruence.
Qed.

(** X8: after [deleteNote] the request [getNotes] gives for a resource
    holds the notes it held before without the deleted one, in the same
    order. *)
Theorem deleteNote_keeps_the_order (noteId rid : N) (db : IDBDatabase) :
  ∃ before after,
    snd (getNotes rid db) = Fulfilled (RequestObject before) ∧
    snd (getNotes rid (fst (deleteNote noteId db))) = Fulfilled (RequestObject after) ∧
    result after = filter (λ note : Note, note.1 ≠ noteId) <$> result before.
Proof.
  eexists _, _. rewrite !getNotes_run. split; [reflexivity|]. split; [reflexivity|].
  cbn. f_equal. rewrite rows_delete, !list_filter_filter. apply list_filter_iff. tauto.
Qed.

(** ** Importing a backup *)

Lemma favorite_rows_keys now fs : (favorite_rows now fs).*1 = fs.
Proof.
  unfold favorite_rows. rewrite <- list_fmap_compose. rewrite <- (list_fmap_id fs) at 2.
  by apply list_fmap_ext.
Qed.

(** X9: [importData] is fulfilled whatever the backup lists, and decides
    section by section: a section whose keys are all different is stored
    whole, a section in which a key occurs twice leaves its store empty
    (the failed [add] aborts the transaction of that section alone), and
    the sections after it are imported all the same. *)
Theorem importData_is_fulfilled_section_by_section (now : string) (data : Backup)
    (db : IDBDatabase) :
  let db' := fst (importData now data db) in
  snd (importData now data db) = Fulfilled tt ∧
  resources db' = stored (data_resources data) ∧
  favorites db' = stored (favorite_rows now <$> data_favorites data) ∧
  notes db' = stored (note_rows <$> data_notes data) ∧
  downloads db' = stored (data_downloads data) ∧
  settings db' = stored (data_settings data) ∧
  ∀ fs, data_favorites data = Some fs →
        favorites db' = if decide (NoDup fs) then list_to_map (favorite_rows now fs) else ∅.
Proof.
  cbn zeta. rewrite importData_run. cbn [fst snd resources favorites notes downloads settings].
  repeat (split; [done|]).
  intros fs ->. cbn. rewrite favorite_rows_keys. by destruct (decide (NoDup fs)).
Qed.

(** X10: importing the backup that lists the rows of a database, in the
    format [exportData] is documented to give, rebuilds that database
    whatever the store held: every resource, note, download and setting
    comes back, every favorite comes back with the date of the import, and
    the notes of every resource come back in the order they had. *)
Theorem importing_the_rows_of_a_database_rebuilds_it (now : string) (db db0 : IDBDatabase) :
  let db' := fst (importData now (backup_of db) db0) in
  snd (importData now (backup_of db) db0) = Fulfilled tt ∧
  resources db' = resources db ∧
  favorites db' = (λ _, now) <$> favorites db ∧
  notes db' = notes db ∧
  (∀ rid, snd (getNotes rid db') = snd (getNotes rid db)) ∧
  downloads db' = downloads db ∧
  settings db' = settings db.
Proof.
  cbn zeta. rewrite importData_run. cbn [fst snd resources favorites notes downloads settings].
  assert (∀ {K V} `{Countable K} `{KeyOrder K} (m : gmap K V),
            stored (Some (rows m)) = m) as Hrows.
  { intros K V ? ? ? m. cbn.
    destruct (decide (NoDup (rows m).*1)) as [_|Hdup]; [apply list_to_map_rows|].
    destruct Hdup. apply NoDup_rows_keys. }
  assert (stored (favorite_rows now <$> data_favorites (backup_of db))
          = (λ _, now) <$> favorites db) as Hfav.
  { cbn. rewrite favorite_rows_keys.
    destruct (decide (NoDup (rows (favorites db)).*1)) as [Hnd|Hdup];
      [|destruct Hdup; apply NoDup_rows_keys].
    apply map_eq. intros k. rewrite lookup_fmap.
    destruct (favorites db !! k) as [d|] eqn:E; cbn.
    - apply elem_of_list_to_map_1; [by rewrite favorite_rows_keys|].
      apply list_elem_of_fmap. exists k. split; [done|].
      apply elem_of_rows_keys. by rewrite E.
    - apply not_elem_of_list_to_map_1. rewrite favorite_rows_keys.
      intros Hin%elem_of_rows_keys. rewrite E in Hin. by destruct Hin. }
  assert (stored (note_rows <$> data_notes (backup_of db)) = notes db) as Hnotes.
  { cbn. unfold note_rows.
    assert (concat (snd <$> rows (fold_left group_note (rows (notes db)) ∅))
            ≡ₚ rows (notes db)) as Hp.
    { rewrite flat_rows, flat_fold_group. unfold flat. by rewrite map_to_list_empty. }
    destruct (decide _) as [Hnd|Hdup]; [|destruct Hdup; rewrite Hp; apply NoDup_rows_keys].
    rewrite <- (list_to_map_rows (notes db)) at 2.
    by apply list_to_map_proper. }
  rewrite Hfav, Hnotes. cbn [backup_of data_resources data_downloads data_settings].
  rewrite !Hrows. by split_and!.
Qed.

(** ** The service worker's other listeners *)

Import SWEvents.

(** *** Generations *)

Lemma generation_In name cs c : generation name cs = Some c → (name, c) ∈ cs.
Proof.
  induction cs as [|[n c'] cs IH]; [done|]. cbn.
  destruct (String.eqb_spec n name) as [->|Hne].
  - intros [= ->]. by left.
  - intros Hg. right. by apply IH.
Qed.

Lemma generation_None name cs : generation name cs = None ↔ name ∉ cs.*1.
Proof.
  induction cs as [|[n c'] cs IH]; cbn.
  - split; [intros _; apply not_elem_of_nil|done].
  - destruct (String.eqb_spec n name) as [->|Hne].
    + split; [done|]. intros Hnot. destruct Hnot. by left.
    + rewrite IH, not_elem_of_cons. cbn. split; [intros ?; split; [congruence|done]|tauto].
Qed.

(** What [caches.match] answers once only the generations called [name]
    are left. *)
Lemma storage_match_filter_name name (cs : list (string * gmap string Response)) key :
  NoDup cs.*1 →
  storage_match (filter (λ c, c.1 = name) cs) key = generation name cs ≫= (.!! key).
Proof.
  induction cs as [|[n c] cs IH]; [done|].
  rewrite fmap_cons. cbn [fst]. intros [Hnot Hnd]%NoDup_cons.
  rewrite filter_cons. cbn [fst generation].
  destruct (String.eqb_spec n name) as [->|Hne].
  - rewrite decide_True by done. cbn.
    destruct (c !! key) eqn:E; [done|].
    rewrite IH by done. apply generation_None in Hnot. by rewrite Hnot.
  - rewrite decide_False by done. by apply IH.
Qed.

(** X11: after activation a URL is answered from the caches exactly as
    the current generation answers it: what only another generation held is
    no longer served, and nothing of the current generation is lost. *)
Theorem activate_answers_from_current_generation (w : World) (key : string) :
  NoDup (names w) →
  storage_match (caches (fst (activate w))) key
  = generation CACHE_NAME (caches w) ≫= (.!! key).
Proof.
  intros Hnd. unfold activate. destruct (on_activate_run w) as (w' & -> & Hc & _).
  cbn [fst]. rewrite Hc. apply storage_match_filter_name. exact Hnd.
Qed.

Lemma activate_answers_from_current_generation_witness :
  NoDup (names Scenarios.upgraded) ∧
  storage_match (caches (fst (activate Scenarios.upgraded))) (Examples.site +:+ "/index.html")
  = generation CACHE_NAME (caches Scenarios.upgraded)
      ≫= (.!! (Examples.site +:+ "/index.html")).
Proof.
  assert (NoDup (names Scenarios.upgraded)) as Hnd
    by (apply (bool_decide_unpack _); by vm_compute).
  split; [exact Hnd|].
  exact (activate_answers_from_current_generation Scenarios.upgraded
           (Examples.site +:+ "/index.html") Hnd).
Defined.

Lemma cleanup_run w :
  on_message (Some "cleanupCache") w
  = fst (postMessage "cleanupComplete"
           (set_caches (filter (λ c, c.1 = CACHE_NAME) (caches w)) w)).
Proof.
  unfold on_message.
  rewrite (bool_decide_eq_false_2 (Some "cleanupCache" = Some "skipWaiting")) by discriminate.
  rewrite (bool_decide_eq_true_2 (Some "cleanupCache" = Some "cleanupCache")) by reflexivity.
  unfold then_ at 1. unfold then_ at 1. unfold caches_keys.
  destruct (delete_stale_run (caches w).*1 w) as [v ->]. cbn [fst].
  by rewrite filter_names_all.
Qed.

(** X12: the [cleanupCache] message does to the caches what activation
    does: afterwards only the current generation can be left and URLs are
    answered as it answers them; the sender is then told [cleanupComplete],
    and neither skipWaiting nor the claim of the clients is touched. *)
Theorem cleanup_message_purges_stale_generations (w : World) (key : string) :
  NoDup (names w) →
  let w' := on_message (Some "cleanupCache") w in
  storage_match (caches w') key = generation CACHE_NAME (caches w) ≫= (.!! key) ∧
  (∀ name, name ∈ names w' → name = CACHE_NAME) ∧
  posted w' = posted w ++ ["cleanupComplete"] ∧
  skipWaitingRequested w' = skipWaitingRequested w ∧
  clientsClaimed w' = clientsClaimed w.
Proof.
  intros Hnd. cbn zeta. rewrite cleanup_run. cbn. repeat split.
  - apply storage_match_filter_name. exact Hnd.
  - intros name. unfold names. cbn.
    intros (c & -> & [Hc _]%list_elem_of_filter)%list_elem_of_fmap. done.
Qed.

Lemma cleanup_message_purges_stale_generations_witness :
  NoDup (names Scenarios.upgraded) ∧
  (∀ name, name ∈ names (on_message (Some "cleanupCache") Scenarios.upgraded) →
           name = CACHE_NAME) ∧
  posted (on_message (Some "cleanupCache") Scenarios.upgraded)
  = posted Scenarios.upgraded ++ ["cleanupComplete"].
Proof.
  assert (NoDup (names Scenarios.upgraded)) as Hnd
    by (apply (bool_decide_unpack _); by vm_compute).
  split; [exact Hnd|].
  destruct (cleanup_message_purges_stale_generations Scenarios.upgraded
              (Examples.site +:+ "/index.html") Hnd) as (_ & Hnames & Hposted & _).
  split; [exact Hnames|exact Hposted].
Defined.

(** *** What fetch handling writes *)

Lemma In_storage_put name key r cs n c k r' :
  (n, c) ∈ storage_put name key r cs → c !! k = Some r' →
  r' = r ∨ ∃ c0, (n, c0) ∈ cs ∧ c0 !! k = Some r'.
Proof.
  unfold storage_put. intros ([n0 c0] & Heq & Hin)%list_elem_of_fmap Hk. cbn in Heq.
  destruct (String.eqb n0 name).
  - injection Heq as -> ->. destruct (decide (key = k)) as [->|Hne].
    + rewrite lookup_insert_eq in Hk. left. congruence.
    + rewrite lookup_insert_ne in Hk by done. right. by exists c0.
  - injection Heq as -> ->. right. by exists c0.
Qed.

Lemma In_caches_open name w n c k r :
  (n, c) ∈ caches (fst (caches_open name w)) → c !! k = Some r → (n, c) ∈ caches w.
Proof.
  unfold caches_open. destruct (caches_has (caches w) name); [done|]. cbn.
  intros [Hin|Hin%list_elem_of_singleton]%elem_of_app Hk; [done|].
  injection Hin as -> ->. by rewrite lookup_empty in Hk.
Qed.

(** A run of the caching promise leaves the caches as they were, or adds
    one entry: under the request's key, which no cache held, the basic 200
    response the network gave. *)
Lemma cache_first_writes request w :
  caches (fst (cache_first request w)) = caches w ∨
  ∃ r, storage_match (caches w) (key_of request) = None ∧
       network w (method request) (key_of request) = Some r ∧
       cacheable r ∧
       caches (fst (cache_first request w)) =
         storage_put CACHE_NAME (key_of request) r
           (caches (fst (caches_open CACHE_NAME w))).
Proof.
  destruct (storage_match (caches w) (key_of request)) as [c|] eqn:Hm.
  { left. by rewrite (cache_first_hit _ _ _ Hm). }
  destruct (network w (method request) (key_of request)) as [r|] eqn:Hn.
  - destruct ((status r =? 200)%N && bool_decide (type r = basic)) eqn:Hc.
    + right. exists r. apply andb_prop in Hc as [Hs%N.eqb_eq Ht%bool_decide_eq_true].
      split; [done|]. split; [done|]. split; [done|].
      rewrite (cache_first_miss_cacheable _ _ _ Hm Hn Hs Ht).
      unfold cached_after, caches_open. cbn [caches log_fetch].
      by destruct (caches_has (caches w) CACHE_NAME).
    + left. by rewrite (cache_first_miss_other _ _ _ Hm Hn Hc).
  - left. by rewrite (cache_first_offline _ _ Hm Hn).
Qed.

Lemma dispatch_fetch_writes request w :
  caches (fst (dispatch_fetch request w)) = caches w ∨
  ∃ r, storage_match (caches w) (key_of request) = None ∧
       network w (method request) (key_of request) = Some r ∧
       cacheable r ∧
       caches (fst (dispatch_fetch request w)) =
         storage_put CACHE_NAME (key_of request) r
           (caches (fst (caches_open CACHE_NAME w))).
Proof.
  unfold dispatch_fetch, dispatch_fetch_with.
  destruct (on_fetch_with DYNAMIC_ASSETS request w) as [w1 o1] eqn:E.
  rewrite on_fetch_external_caches. cbn [fst].
  unfold on_fetch_with in E.
  destruct (negb _); [left; by inversion E|].
  destruct (existsb _ _); [left; by inversion E|].
  destruct (String.eqb _ _); [|left; by inversion E].
  pose proof (cache_first_writes request w) as Hw.
  destruct (cache_first request w) as [w' r]. inversion E; subst. exact Hw.
Qed.



(** X14: the fetch listeners write nothing but basic responses of status
    200: if every cached entry is one, every cached entry still is one
    after any list of fetch events. *)
Theorem fetch_caches_only_basic_200 (requests : list Request) (w : World) :
  all_entries cacheable w → all_entries cacheable (fetch_all requests w).
Proof.
  revert w. unfold fetch_all.
  induction requests as [|request requests IH]; intros w Hw; [done|].
  cbn [fold_left]. apply IH. intros name c k r0.
  destruct (dispatch_fetch_writes request w) as [->|(r' & _ & _ & Hc & ->)]; [apply Hw|].
  intros Hin Hk. destruct (In_storage_put _ _ _ _ _ _ _ _ Hin Hk) as [->|(c0 & Hin0 & Hk0)];
    [done|].
  eapply Hw; [|exact Hk0]. by eapply In_caches_open.
Qed.

Lemma fetch_caches_only_basic_200_witness :
  all_entries cacheable Examples.online ∧
  all_entries cacheable (fetch_all [Examples.asset; Examples.page] Examples.online).
Proof.
  assert (all_entries cacheable Examples.online) as Hall.
  { intros name c key r Hin Hr. apply list_elem_of_singleton in Hin.
    injection Hin as _ ->. apply lookup_singleton_Some in Hr as [_ <-]. by split. }
  split; [exact Hall|].
  exact (fetch_caches_only_basic_200 [Examples.asset; Examples.page] Examples.online Hall).
Defined.

(** *** Answers that are not cached *)

(** A response that is not a basic 200 response is handed to the page
    as it is, and nothing is written for it. *)
Lemma uncacheable_response_is_passed_on (w : World) (request : Request) (r : Response) :
  method request = "GET" → origin (url request) = location_origin w →
  storage_match (caches w) (key_of request) = None →
  network w "GET" (key_of request) = Some r →
  ¬ cacheable r →
  on_fetch request w = (log_fetch [key_of request] w, responds_with (Some r)).
Proof.
  intros Hm Ho Hmiss Hnet Hnc. rewrite <- Hm in Hnet.
  rewrite (on_fetch_same_origin _ _ Hm Ho).
  rewrite (cache_first_miss_other _ _ _ Hmiss Hnet); [done|].
  apply not_true_iff_false. intros [Hs%N.eqb_eq Ht%bool_decide_eq_true]%andb_prop.
  by apply Hnc.
Qed.

(** X15: when the fetch of a request that is in no cache fails and the
    Accept header does not include text/html, the handler has no
    replacement: [respondWith] is given a promise fulfilled with no
    response, and the caches are as they were. *)
Theorem failed_fetch_of_other_content_is_not_replaced (w : World) (request : Request)
    (a : string) :
  method request = "GET" → origin (url request) = location_origin w →
  storage_match (caches w) (key_of request) = None →
  network w "GET" (key_of request) = None →
  accept request = Some a → includes a "text/html" = false →
  on_fetch request w = (log_fetch [key_of request] w, responds_with None).
Proof.
  intros Hm Ho Hmiss Hnet Ha Hhtml. rewrite <- Hm in Hnet.
  rewrite (on_fetch_same_origin _ _ Hm Ho), (cache_first_offline _ _ Hmiss Hnet).
  cbn. by rewrite Ha, Hhtml.
Qed.

Lemma failed_fetch_of_other_content_is_not_replaced_witness :
  method Examples.asset = "GET" ∧
  origin (url Examples.asset) = location_origin Examples.offline ∧
  storage_match (caches Examples.offline) (key_of Examples.asset) = None ∧
  network Examples.offline "GET" (key_of Examples.asset) = None ∧
  accept Examples.asset = Some "*/*" ∧
  includes "*/*" "text/html" = false ∧
  snd (on_fetch Examples.asset Examples.offline) = responds_with None.
Proof.
  split; [reflexivity|]. split; [reflexivity|]. split; [reflexivity|].
  split; [reflexivity|]. split; [reflexivity|]. split; [reflexivity|].
  exact (f_equal snd
           (failed_fetch_of_other_content_is_not_replaced Examples.offline Examples.asset
              "*/*" eq_refl eq_refl eq_refl eq_refl eq_refl eq_refl)).
Defined.

Lemma cross_origin_passes_through (w : World) (request : Request) :
  origin (url request) ≠ location_origin w →
  on_fetch request w = (w, passthrough).
Proof.
  intros Ho. unfold on_fetch, on_fetch_with.
  destruct (negb _); [done|]. destruct (existsb _ _); [done|].
  destruct (String.eqb_spec (origin (url request)) (location_origin w)); done.
Qed.

(** *** The listener for external-domain.com *)

(** X16: a request the caching listener leaves alone and whose URL
    contains external-domain.com is answered by the second listener: with
    the network's response when the fetch succeeds and with the 503
    response [External resource unavailable] when it fails; nothing is
    cached. *)
Theorem external_listener_answers_or_falls_back (w : World) (request : Request) :
  method request ≠ "GET" ∨ origin (url request) ≠ location_origin w →
  includes (href (url request)) "external-domain.com" = true →
  dispatch_fetch request w =
    (log_fetch [href (url request)] w,
     responds_with (Some (default unavailable
                            (network w (method request) (href (url request)))))).
Proof.
  intros Hfirst Hext. unfold dispatch_fetch, dispatch_fetch_with.
  assert (on_fetch_with DYNAMIC_ASSETS request w = (w, passthrough)) as ->.
  { destruct Hfirst as [Hm|Ho].
    - apply bypass_passes_through. by left.
    - by apply cross_origin_passes_through. }
  unfold on_fetch_external. rewrite Hext. unfold catch_, then_, fetch.
  by destruct (network w (method request) (href (url request))).
Qed.

Lemma external_listener_answers_or_falls_back_witness :
  origin (url Scenarios.external) ≠ location_origin Examples.offline ∧
  includes (href (url Scenarios.external)) "external-domain.com" = true ∧
  snd (dispatch_fetch Scenarios.external Examples.offline)
  = responds_with (Some unavailable).
Proof.
  assert (origin (url Scenarios.external) ≠ location_origin Examples.offline) as Hne
    by (by vm_compute).
  split; [exact Hne|]. split; [reflexivity|].
  exact (f_equal snd
           (external_listener_answers_or_falls_back Examples.offline Scenarios.external
              (or_intror Hne) eq_refl)).
Defined.

(** *** Push with an object payload *)

Lemma found_absent (name : string) (fields : list (string * Json)) (acc : option Json) :
  name ∉ fields.*1 →
  fold_left (λ found f, if String.eqb f.1 name then Some f.2 else found) fields acc = acc.
Proof.
  revert acc. induction fields as [|[k v] fields IH]; intros acc Hnot; [done|].
  rewrite fmap_cons in Hnot. apply not_elem_of_cons in Hnot as [Hne Hnot]. cbn.
  destruct (String.eqb_spec k name) as [->|_]; [done|]. by apply IH.
Qed.

Lemma found_In (name : string) (fields : list (string * Json)) (acc : option Json) x :
  fold_left (λ found f, if String.eqb f.1 name then Some f.2 else found) fields acc = Some x →
  acc = Some x ∨ (name, x) ∈ fields.
Proof.
  revert acc. induction fields as [|[k v] fields IH]; intros acc; [by left|]. cbn.
  intros [Hacc|Hin]%IH; [|right; by right].
  destruct (String.eqb_spec k name) as [->|_]; [|by left].
  injection Hacc as ->. right. by left.
Qed.

Lemma found_unique (name : string) (fields : list (string * Json)) (acc : option Json) x :
  NoDup fields.*1 → (name, x) ∈ fields →
  fold_left (λ found f, if String.eqb f.1 name then Some f.2 else found) fields acc = Some x.
Proof.
  revert acc. induction fields as [|[k v] fields IH]; intros acc; [by intros _ ?%elem_of_nil|].
  rewrite fmap_cons. cbn [fst]. intros [Hk Hnd]%NoDup_cons [Heq|Hin]%elem_of_cons.
  - injection Heq as <- <-. cbn. rewrite String.eqb_refl. by apply found_absent.
  - cbn. by apply IH.
Qed.

Lemma or_default_chosen fields name d :
  ∃ found, get_property (JObj fields) name = inr found ∧
           chosen fields name d (or_default found d).
Proof.
  eexists. split; [reflexivity|]. split.
  - destruct (fold_left _ fields None) as [x|] eqn:E; cbn; [|by left].
    destruct (truthy x) eqn:Ht; [|by left]. right. exists x.
    apply found_In in E as [?|?]; [done|]. done.
  - intros Hnd x Hin Ht. rewrite (found_unique name fields None x Hnd Hin). cbn.
    by rewrite Ht.
Qed.

(** X17: a push whose payload is a JSON object shows exactly one
    notification; its title, body and icon are each the default or a truthy
    value the payload gives under that name (the one it gives, when the
    payload names no key twice), and the badge is always the default. *)
Theorem push_object_payload_fills_the_fields (fields : list (string * Json)) (w : World) :
  ∃ n,
    on_push (Some (JsonPayload (JObj fields))) w = (fst (showNotification n w), None) ∧
    shown (fst (showNotification n w)) = shown w ++ [n] ∧
    chosen fields "title" default_title (ntitle n) ∧
    chosen fields "body" (nbody default_options) (nbody n) ∧
    chosen fields "icon" (nicon default_options) (nicon n) ∧
    nbadge n = nbadge default_options.
Proof.
  destruct (or_default_chosen fields "title" default_title) as (t & Ht & Hct).
  destruct (or_default_chosen fields "body" (nbody default_options)) as (b & Hb & Hcb).
  destruct (or_default_chosen fields "icon" (nicon default_options)) as (i & Hi & Hci).
  eexists (mkNotification _ _ _ _). unfold on_push. rewrite Ht, Hb, Hi.
  split; [reflexivity|]. split; [reflexivity|].
  split; [exact Hct|]. split; [exact Hcb|]. split; [exact Hci|reflexivity].
Qed.

(** *** notificationclick *)

Lemma first_root_client_Some i clients j :
  first_root_client i clients = Some j →
  ∃ client, clients !! (j - i) = Some client ∧ i ≤ j ∧
            client_url client = "/" ∧ focusable client = true ∧
            ∀ k c, k < j - i → clients !! k = Some c →
                   ¬ (client_url c = "/" ∧ focusable c = true).
Proof.
  revert i. induction clients as [|c clients IH]; intros i; [done|]. cbn.
  destruct (String.eqb_spec (client_url c) "/") as [Hu|Hu]; cbn.
  - destruct (focusable c) eqn:Hf.
    + intros [= <-]. exists c. rewrite Nat.sub_diag. split_and!; [done|lia|done|done|].
      intros k c' Hk. lia.
    + intros (client & Hl & Hle & Hurl & Hfoc & Hfirst)%IH.
      exists client. replace (j - i) with (S (j - S i)) by lia.
      split_and!; [done|lia|done|done|].
      intros [|k] c' Hk; cbn; [intros [= <-] [_ ?]; congruence|].
      intros Hc'. apply (Hfirst k c'); [lia|done].
  - intros (client & Hl & Hle & Hurl & Hfoc & Hfirst)%IH.
    exists client. replace (j - i) with (S (j - S i)) by lia.
    split_and!; [done|lia|done|done|].
    intros [|k] c' Hk; cbn; [intros [= <-] [? _]; congruence|].
    intros Hc'. apply (Hfirst k c'); [lia|done].
Qed.

Lemma first_root_client_None i clients :
  first_root_client i clients = None →
  ∀ c, c ∈ clients → ¬ (client_url c = "/" ∧ focusable c = true).
Proof.
  revert i. induction clients as [|c clients IH]; intros i; [by intros _ ? ?%elem_of_nil|].
  cbn. destruct (String.eqb_spec (client_url c) "/") as [Hu|Hu]; cbn.
  - destruct (focusable c) eqn:Hf; [done|].
    intros Hnone c' [->|Hin]%elem_of_cons; [intros [_ ?]; congruence|by eapply IH].
  - intros Hnone c' [->|Hin]%elem_of_cons; [intros [? _]; congruence|by eapply IH].
Qed.

(** X18: a click on a notification closes it and then either focuses the
    first window client whose url is ['/'] and that can be focused, opening
    nothing, or, when there is no such client, focuses nothing and opens
    ['/'] if [clients.openWindow] exists. *)
Theorem notification_click_focuses_or_opens (s : Windows) :
  let s' := on_notificationclick s in
  notificationClosed s' = true ∧
  ((∃ j client,
      clientList s !! j = Some client ∧
      client_url client = "/" ∧ focusable client = true ∧
      (∀ k c, k < j → clientList s !! k = Some c →
              ¬ (client_url c = "/" ∧ focusable c = true)) ∧
      focusedClients s' = focusedClients s ++ [j] ∧
      openedWindows s' = openedWindows s)
   ∨
   ((∀ c, c ∈ clientList s → ¬ (client_url c = "/" ∧ focusable c = true)) ∧
    focusedClients s' = focusedClients s ∧
    openedWindows s' =
      openedWindows s ++ (if openWindowAvailable s then ["/"] else []))).
Proof.
  cbn zeta. unfold on_notificationclick. cbn [clientList].
  destruct (first_root_client 0 (clientList s)) as [j|] eqn:E.
  - split; [done|]. left.
    apply first_root_client_Some in E as (client & Hl & _ & Hu & Hf & Hfirst).
    rewrite Nat.sub_0_r in Hl, Hfirst. by exists j, client.
  - pose proof (first_root_client_None _ _ E) as Hnone. cbn.
    destruct (openWindowAvailable s); cbn; (split; [done|]); right;
      by rewrite ?(right_id_L [] (++)).
Qed.

(** *** Background sync *)

Lemma syncResources_run (parse : string → option Json) (s : SyncWorld) :
  let u := location_origin (fst s) +:+ "/data/resources.json" in
  let done_notice := mkNotice "QNEET" "Resources updated successfully!"
                              "/assets/icons/icon-192.png" in
  syncResources parse s =
    ((log_fetch [u] (fst s),
      match network (fst s) "GET" u with
      | Some response =>
          match parse (body response) with
          | Some JNull | None => snd s
          | Some _ => snd s ++ [done_notice]
          end
      | None => snd s
      end), Fulfilled tt).
Proof.
  cbn zeta. destruct s as [w notices].
  unfold syncResources, catch_, then_ at 1, lift_world, fetch. cbn [fst snd].
  destruct (network w "GET" _) as [response|]; [|done].
  unfold then_ at 1, response_json. destruct (parse (body response)) as [v|]; [|done].
  by destruct v.
Qed.

(** X19: the sync listener ignores every tag but [sync-resources]; for
    that tag the promise it hands to [waitUntil] is always fulfilled, the
    caches are untouched, /data/resources.json is fetched once, and the
    notification is shown exactly when the fetch succeeded and the body
    parsed to a JSON value other than [null]. *)
Theorem background_sync_never_fails (parse : string → option Json) (tag : string)
    (s : SyncWorld) :
  let u := location_origin (fst s) +:+ "/data/resources.json" in
  let s' := fst (on_sync parse tag s) in
  (tag ≠ "sync-resources" → on_sync parse tag s = (s, None)) ∧
  (tag = "sync-resources" →
     snd (on_sync parse tag s) = Some (Fulfilled tt) ∧
     caches (fst s') = caches (fst s) ∧
     netlog (fst s') = netlog (fst s) ++ [u] ∧
     (snd s' = snd s ∨
      snd s' = snd s ++ [mkNotice "QNEET" "Resources updated successfully!"
                                  "/assets/icons/icon-192.png"]) ∧
     (snd s' ≠ snd s ↔
      ∃ response v, network (fst s) "GET" u = Some response ∧
                    parse (body response) = Some v ∧ v ≠ JNull)).
Proof.
  cbn zeta. split.
  - intros Hne. unfold on_sync. by destruct (String.eqb_spec tag "sync-resources").
  - intros ->. unfold on_sync. cbn [String.eqb Ascii.eqb Bool.eqb]. 
    pose proof (syncResources_run parse s) as Hrun. cbn zeta in Hrun. rewrite Hrun.
    cbn [fst snd]. split; [done|]. split; [done|]. split; [done|].
    assert (∀ (l : list Notice) n, l ++ [n] ≠ l) as Hgrow.
    { intros l n Heq. apply (f_equal length) in Heq. rewrite length_app in Heq. cbn in Heq. lia. }
    destruct (network (fst s) "GET" _) as [response|] eqn:En.
    + destruct (parse (body response)) as [v|] eqn:Ep.
      * destruct v.
        1: { split; [by left|]. split; [done|].
             intros (r' & v' & Hr & Hv & Hnn). congruence. }
        all: split; [by right|]; split; [intros _; by eexists _, _|intros _; apply Hgrow].
      * split; [by left|]. split; [done|].
        intros (r' & v' & Hr & Hv & _). congruence.
    + split; [by left|]. split; [done|]. intros (r' & v' & Hr & _). congruence.
Qed.

(** The periodic sync listener ignores every tag but [update-resources],
    for which it shows its notification. *)
Lemma periodic_sync_always_notifies (tag : string) (s : SyncWorld) :
  (tag ≠ "update-resources" → on_periodicsync tag s = (s, None)) ∧
  on_periodicsync "update-resources" s =
    ((fst s, snd s ++ [mkNotice "QNEET" "Resource library is up to date!"
                                "/assets/icons/icon-192.png"]), Some (Fulfilled tt)).
Proof.
  split; [|done].
  intros Hne. unfold on_periodicsync. by destruct (String.eqb_spec tag "update-resources").
Qed.

(** *** After a successful install *)

Lemma install_keeps_environment w :
  location_origin (fst (install w)) = location_origin w ∧
  network (fst (install w)) = network w.
Proof.
  unfold install. destruct (fetch_batch (network w) (manifest w)) eqn:E.
  - rewrite (on_install_success _ _ E). cbn.
    by destruct (caches_open_run CACHE_NAME w) as (w' & -> & _ & _ & _ & ? & ? & _).
  - rewrite (on_install_failure _ E). cbn.
    by destruct (caches_open_run CACHE_NAME w) as (w' & -> & _ & _ & _ & ? & ? & _).
Qed.

(** X20: once an install succeeded, a GET of a manifest asset is answered
    from the caches without a network fetch and without any change. *)
Theorem installed_assets_are_served_from_cache (w : World) (l : list (string * Response))
    (path : string) (acc : option string) :
  fetch_batch (network w) (manifest w) = Some l → path ∈ STATIC_ASSETS →
  let w1 := fst (install w) in
  ∃ r, on_fetch (mkRequest "GET" (mkURL (location_origin w) path) acc) w1
       = (w1, responds_with (Some r)).
Proof.
  intros Hl Hpath. cbn zeta.
  destruct (install_success_serves_manifest w l path Hl Hpath) as (_ & _ & [r Hr]).
  destruct (install_keeps_environment w) as [Ho _].
  exists r. rewrite on_fetch_same_origin; [|done|by rewrite Ho].
  by rewrite (cache_first_hit _ _ r).
Qed.

Lemma installed_assets_are_served_from_cache_witness :
  fetch_batch (network Examples.online) (manifest Examples.online)
  = Some ((λ u, (u, mkResponse 200 basic u)) <$> manifest Examples.online) ∧
  "/index.html" ∈ STATIC_ASSETS ∧
  ∃ r, on_fetch (mkRequest "GET" (mkURL (location_origin Examples.online) "/index.html") None)
                (fst (install Examples.online))
       = (fst (install Examples.online), responds_with (Some r)).
Proof.
  assert (fetch_batch (network Examples.online) (manifest Examples.online)
          = Some ((λ u, (u, mkResponse 200 basic u)) <$> manifest Examples.online)) as Hbatch
    by (by vm_compute).
  assert ("/index.html" ∈ STATIC_ASSETS) as Hin
    by (apply (bool_decide_unpack _); by vm_compute).
  split; [exact Hbatch|]. split; [exact Hin|].
  exact (installed_assets_are_served_from_cache Examples.online _ "/index.html" None
           Hbatch Hin).
Defined.

Lemma fetch_batch_values net us l u r :
  fetch_batch net us = Some l → (u, r) ∈ l → net "GET" u = Some r.
Proof.
  revert l. induction us as [|u' us IH]; intros l; cbn.
  - by intros [= <-] ?%elem_of_nil.
  - destruct (net "GET" u') as [r'|] eqn:E; [|done]. destruct (ok_status r'); [|done].
    destruct (fetch_batch net us) as [l'|]; [|done]. intros [= <-].
    intros [[= -> ->]|Hin]%elem_of_cons; [done|]. by apply (IH l').
Qed.

Lemma generation_storage_put name key r cs :
  generation name (storage_put name key r cs) = (λ c, <[key := r]> c) <$> generation name cs.
Proof.
  induction cs as [|[n c] cs IH]; [done|]. rewrite storage_put_cons. cbn.
  destruct (String.eqb n name) eqn:E; cbn; rewrite E; [done|apply IH].
Qed.

Lemma generation_fold_put name (l : list (string * Response)) cs :
  generation name (fold_left (λ cs e, storage_put name e.1 e.2 cs) l cs)
  = (λ c, fold_left (λ c e, <[e.1 := e.2]> c) l c) <$> generation name cs.
Proof.
  revert cs. induction l as [|e l IH]; intros cs; cbn.
  - by destruct (generation name cs).
  - rewrite IH, generation_storage_put. by destruct (generation name cs).
Qed.

Lemma fold_insert_lookup (l : list (string * Response)) (c : gmap string Response) u r :
  (∀ r', (u, r') ∈ l → r' = r) → (u, r) ∈ l ∨ c !! u = Some r →
  fold_left (λ c e, <[e.1 := e.2]> c) l c !! u = Some r.
Proof.
  revert c. induction l as [|[k v] l IH]; intros c Hfun Hin.
  - destruct Hin as [?%elem_of_nil|?]; done.
  - cbn. apply IH; [intros r' ?; apply Hfun; by right|].
    destruct (decide (k = u)) as [->|Hne].
    + right. rewrite lookup_insert_eq. f_equal. apply Hfun. by left.
    + destruct Hin as [[[= ? ?]|?]%elem_of_cons|?]; [done|by left|].
      right. by rewrite lookup_insert_ne.
Qed.

Lemma caches_has_generation cs name : caches_has cs name = true → is_Some (generation name cs).
Proof.
  intros Hhas. destruct (generation name cs) eqn:E; [done|].
  apply generation_None in E. by apply caches_has_In in Hhas.
Qed.

(** After an install in which every manifest fetch succeeded, the current
    generation holds, for every manifest URL, the response fetched. *)
Lemma install_success_current_generation w l path r :
  fetch_batch (network w) (manifest w) = Some l → path ∈ STATIC_ASSETS →
  network w "GET" (location_origin w +:+ path) = Some r →
  generation CACHE_NAME (caches (fst (install w))) ≫= (.!! (location_origin w +:+ path))
  = Some r.
Proof.
  intros Hl Hpath Hnet. unfold install. rewrite (on_install_success _ _ Hl). cbn.
  rewrite generation_fold_put.
  destruct (caches_open_run CACHE_NAME w) as (w' & -> & [c Hc]%caches_has_generation & _).
  cbn. rewrite Hc. cbn. apply fold_insert_lookup.
  - intros r' Hin. apply (fetch_batch_values _ _ _ _ _ Hl) in Hin. congruence.
  - left. assert (location_origin w +:+ path ∈ l.*1) as Hin.
    { rewrite (fetch_batch_keys _ _ _ Hl). unfold manifest.
      by apply (list_elem_of_fmap_2 (λ p, location_origin w +:+ p)). }
    apply list_elem_of_fmap in Hin as ([u r'] & Hu & Hin). cbn in Hu. subst u.
    pose proof (fetch_batch_values _ _ _ _ _ Hl Hin). by replace r with r' by congruence.
Qed.

(** X21: after a successful install and the activation, a navigation
    whose fetch fails is always answered with a document: the cached page
    if the caches hold it, and otherwise the root document that the install
    fetched. *)
Theorem offline_navigation_after_install (w : World) (l : list (string * Response))
    (root : Response) (request : Request) (a : string) :
  NoDup (names w) →
  fetch_batch (network w) (manifest w) = Some l →
  network w "GET" (location_origin w +:+ "/index.html") = Some root →
  method request = "GET" → origin (url request) = location_origin w →
  network w "GET" (key_of request) = None →
  accept request = Some a → includes a "text/html" = true →
  let w2 := fst (activate (fst (install w))) in
  ∃ r, snd (on_fetch request w2) = responds_with (Some r) ∧
       (storage_match (caches w2) (key_of request) = None → r = root).
Proof.
  intros Hnd Hl Hroot Hm Ho Hnet Ha Hhtml. cbn zeta.
  destruct (install_keeps_environment w) as [Ho1 Hn1].
  destruct (install_present w Hnd) as [Hnd1 _].
  unfold activate. destruct (on_activate_run (fst (install w))) as (w2 & -> & Hc & Ho2 & Hn2 & _).
  cbn [fst].
  assert (storage_match (caches w2) (location_origin w2 +:+ "/index.html") = Some root) as Hcached.
  { rewrite Hc, storage_match_filter_name by exact Hnd1. rewrite Ho2, Ho1.
    apply (install_success_current_generation w l "/index.html"); [done| |done].
    apply (bool_decide_unpack _). by vm_compute. }
  rewrite on_fetch_same_origin; [|done|by rewrite Ho2, Ho1]. cbn [snd].
  destruct (storage_match (caches w2) (key_of request)) as [c|] eqn:Hmatch.
  - exists c. rewrite (cache_first_hit _ _ _ Hmatch). split; [done|]. done.
  - exists root. rewrite cache_first_offline; [|done|by rewrite Hm, Hn2, Hn1].
    by rewrite Ha, Hhtml, Hcached.
Qed.

Lemma offline_navigation_after_install_witness :
  NoDup (names Scenarios.patchy) ∧
  fetch_batch (network Scenarios.patchy) (manifest Scenarios.patchy)
  = Some ((λ u, (u, mkResponse 200 basic u)) <$> manifest Scenarios.patchy) ∧
  network Scenarios.patchy "GET" (location_origin Scenarios.patchy +:+ "/index.html")
  = Some (mkResponse 200 basic (Examples.site +:+ "/index.html")) ∧
  method Examples.page = "GET" ∧
  origin (url Examples.page) = location_origin Scenarios.patchy ∧
  network Scenarios.patchy "GET" (key_of Examples.page) = None ∧
  accept Examples.page = Some "text/html,application/xhtml+xml" ∧
  includes "text/html,application/xhtml+xml" "text/html" = true ∧
  ∃ r, snd (on_fetch Examples.page (fst (activate (fst (install Scenarios.patchy)))))
       = responds_with (Some r).
Proof.
  assert (NoDup (names Scenarios.patchy)) as Hnd
    by (apply (bool_decide_unpack _); by vm_compute).
  assert (fetch_batch (network Scenarios.patchy) (manifest Scenarios.patchy)
          = Some ((λ u, (u, mkResponse 200 basic u)) <$> manifest Scenarios.patchy)) as Hbatch
    by (by vm_compute).
  split; [exact Hnd|]. split; [exact Hbatch|]. split; [reflexivity|].
  split; [reflexivity|]. split; [reflexivity|]. split; [reflexivity|].
  split; [reflexivity|]. split; [reflexivity|].
  destruct (offline_navigation_after_install Scenarios.patchy _
              (mkResponse 200 basic (Examples.site +:+ "/index.html")) Examples.page
              "text/html,application/xhtml+xml"
              Hnd Hbatch eq_refl eq_refl eq_refl eq_refl eq_refl eq_refl) as (r & Hr & _).
  by exists r.
Defined.

(** ** Downloads *)

Lemma ticks_add k1 k2 h app : App.ticks (k1 + k2) h app = App.ticks k2 h (App.ticks k1 h app).
Proof. revert app. induction k1 as [|k1 IH]; intros app; simpl; [done|apply IH]. Qed.

Lemma tick_idle h app : h ∉ App.intervals app → App.tick h app = (app, Fulfilled tt).
Proof. intros Hh. unfold App.tick. by rewrite bool_decide_eq_false_2. Qed.

Lemma ticks_idle k h app : h ∉ App.intervals app → App.ticks k h app = app.
Proof.
  intros Hh. induction k as [|k IH]; simpl; [done|].
  by rewrite tick_idle.
Qed.

Lemma lookup_alter_Some {A} (f : A → A) (h : nat) (l : list A) (d : A) :
  l !! h = Some d → alter f h l !! h = Some (f d).
Proof. intros Hd. by rewrite list_lookup_alter_eq, Hd. Qed.

Lemma tick_running h app id r t p :
  h ∈ App.intervals app →
  App.heap app !! h = Some (id, mkDownloadData r t p) →
  (p + 5 < 100)%N →
  let app' := fst (App.tick h app) in
  App.heap app' !! h = Some (id, mkDownloadData r t (p + 5)) ∧
  App.intervals app' = App.intervals app ∧ App.db app' = App.db app ∧
  App.downloads app' = App.downloads app ∧ App.resources app' = App.resources app.
Proof.
  intros Hh Hobj Hp. unfold App.tick.
  rewrite bool_decide_eq_true_2 by done.
  unfold then_, App.deref. cbv beta zeta. unfold Download in *. rewrite Hobj. simpl.
  destruct (N.leb_spec 100 (p + 5)) as [?|_]; [lia|]. simpl.
  split_and!; try done.
  exact (lookup_alter_Some _ _ _ _ Hobj).
Qed.

Lemma ticks_running k : ∀ h app id r t p,
  h ∈ App.intervals app →
  App.heap app !! h = Some (id, mkDownloadData r t p) →
  (p + 5 * N.of_nat k < 100)%N →
  let app' := App.ticks k h app in
  App.heap app' !! h = Some (id, mkDownloadData r t (p + 5 * N.of_nat k)) ∧
  App.intervals app' = App.intervals app ∧ App.db app' = App.db app ∧
  App.downloads app' = App.downloads app ∧ App.resources app' = App.resources app.
Proof.
  induction k as [|k IH]; intros h app id r t p Hh Hobj Hp; cbv zeta; simpl App.ticks.
  - split_and!; try done. rewrite Hobj. do 3 f_equal. lia.
  - destruct (tick_running h app id r t p Hh Hobj ltac:(lia)) as (H1 & H2 & H3 & H4 & H5).
    destruct (IH h (fst (App.tick h app)) id r t (p + 5)%N) as (I1 & I2 & I3 & I4 & I5).
    + by rewrite H2.
    + done.
    + lia.
    + split_and!; try congruence.
      rewrite I1. do 3 f_equal. lia.
Qed.

Lemma tick_final h app id r t p :
  h ∈ App.intervals app →
  App.heap app !! h = Some (id, mkDownloadData r t p) →
  (100 ≤ p + 5)%N →
  let app' := fst (App.tick h app) in
  App.heap app' !! h = Some (id, mkDownloadData r t 100) ∧
  (h ∉ App.intervals app') ∧
  App.db app' = set_downloads (<[id := mkDownloadData r t 100]> (downloads (App.db app)))
                              (App.db app) ∧
  App.downloads app' = App.downloads app ∧ App.resources app' = App.resources app.
Proof.
  intros Hh Hobj Hp. unfold App.tick.
  rewrite bool_decide_eq_true_2 by done.
  unfold then_, App.deref. cbv beta zeta. unfold Download in *. rewrite Hobj. simpl.
  destruct (N.leb_spec 100 (p + 5)) as [_|?]; [|lia]. simpl.
  rewrite (lookup_alter_Some _ _ _ _ (lookup_alter_Some _ _ _ _ Hobj)). simpl.
  split_and!; try done.
  - exact (lookup_alter_Some _ _ _ _ (lookup_alter_Some _ _ _ _ Hobj)).
  - intros Hin. apply list_elem_of_filter in Hin. by destruct Hin.
Qed.

(** A download always starts: the object is pushed, [addDownload] is
    fulfilled whether or not it stores the record, and the interval is
    set. *)
Lemma downloadResource_run app now rid resource :
  App.find_resource rid (App.resources app) = Some resource →
  App.downloadResource now rid app =
    (App.mkApp (App.resources app)
               (App.heap app ++ [(now, mkDownloadData resource.1 (title resource.2) 0)])
               (App.downloads app ++ [length (App.heap app)])
               (App.intervals app ++ [length (App.heap app)])
               (match downloads (App.db app) !! now with
                | Some _ => App.db app
                | None =>
                    set_downloads (<[now := mkDownloadData resource.1 (title resource.2) 0]>
                                     (downloads (App.db app))) (App.db app)
                end),
     Fulfilled tt).
Proof.
  intros Hfind. unfold App.downloadResource. rewrite Hfind.
  unfold then_ at 1. unfold App.push_download at 1. cbv beta iota zeta.
  unfold then_ at 1. unfold App.storage at 1. cbn [App.db].
  by rewrite addDownload_run.
Qed.

Lemma downloadResource_started app now rid resource :
  App.find_resource rid (App.resources app) = Some resource →
  downloads (App.db app) !! now = None →
  App.downloadResource now rid app =
    (App.mkApp (App.resources app)
               (App.heap app ++ [(now, mkDownloadData resource.1 (title resource.2) 0)])
               (App.downloads app ++ [length (App.heap app)])
               (App.intervals app ++ [length (App.heap app)])
               (set_downloads (<[now := mkDownloadData resource.1 (title resource.2) 0]>
                                 (downloads (App.db app))) (App.db app)),
     Fulfilled tt).
Proof.
  intros Hfind Hfresh. rewrite (downloadResource_run _ _ _ _ Hfind). by rewrite Hfresh.
Qed.

(** X22: from the start of a download to its end the object the page
    shows reads 5, 10, ..., 100 percent, the interval runs for twenty
    firings, and the stored record reads 0 until the twentieth firing and
    100 from then on. *)
Theorem download_progress_is_stored_at_both_ends (app : App.App) (now rid : N)
    (resource : Resource) (k : nat) :
  App.find_resource rid (App.resources app) = Some resource →
  downloads (App.db app) !! now = None →
  let h := length (App.heap app) in
  let app' := App.ticks k h (fst (App.downloadResource now rid app)) in
  App.heap app' !! h =
    Some (now, mkDownloadData resource.1 (title resource.2) (N.min (5 * N.of_nat k) 100)) ∧
  (h ∈ App.intervals app' ↔ (k < 20)%nat) ∧
  downloads (App.db app') !! now =
    Some (mkDownloadData resource.1 (title resource.2) (if (k <? 20)%nat then 0 else 100)%N).
Proof.
  intros Hfind Hfresh h app'. subst app'.
  rewrite (downloadResource_started _ _ _ _ Hfind Hfresh). cbn [fst]. fold h.
  set (app1 := App.mkApp _ _ _ _ _).
  assert (Hh : h ∈ App.intervals app1) by (simpl; apply elem_of_app; right; by left).
  assert (Hobj : App.heap app1 !! h =
                 Some (now, mkDownloadData resource.1 (title resource.2) 0)).
  { simpl. by rewrite lookup_app_r, Nat.sub_diag by done. }
  destruct (decide (k < 20)%nat) as [Hk|Hk].
  - destruct (ticks_running k h app1 _ _ _ _ Hh Hobj ltac:(lia)) as (H1 & H2 & H3 & _).
    rewrite H1, H2, H3. split_and!.
    + do 3 f_equal. lia.
    + done.
    + destruct (Nat.ltb_spec k 20) as [_|?]; [|lia]. simpl. by rewrite lookup_insert_eq.
  - replace k with (19 + (1 + (k - 20)))%nat by lia.
    rewrite (ticks_add 19), (ticks_add 1).
    destruct (ticks_running 19 h app1 _ _ _ _ Hh Hobj ltac:(lia)) as (H1 & H2 & H3 & _).
    remember (App.ticks 19 h app1) as app19 eqn:E19. clear E19.
    destruct (tick_final h app19 _ _ _ _ ltac:(by rewrite H2) H1 ltac:(lia))
      as (F1 & F2 & F3 & _).
    change (App.ticks 1 h app19) with (fst (App.tick h app19)).
    rewrite ticks_idle by done. split_and!.
    + rewrite F1. do 3 f_equal. lia.
    + split; [done|lia].
    + destruct (Nat.ltb_spec (19 + (1 + (k - 20))) 20) as [?|_]; [lia|].
      rewrite F3. simpl. by rewrite lookup_insert_eq.
Qed.

Lemma download_progress_is_stored_at_both_ends_witness :
  App.find_resource 1 (App.resources Scenarios.library) = Some Scenarios.formula_sheet ∧
  downloads (App.db Scenarios.library) !! 1700000000500%N = None ∧
  downloads (App.db (App.ticks 7 0 (fst (App.downloadResource 1700000000500 1
                                           Scenarios.library))))
    !! 1700000000500%N
  = Some (mkDownloadData 1 "Physics Formula Sheet" 0).
Proof.
  split; [reflexivity|]. split; [reflexivity|].
  destruct (download_progress_is_stored_at_both_ends Scenarios.library 1700000000500 1
              Scenarios.formula_sheet 7 eq_refl eq_refl) as (_ & _ & Hstored).
  exact Hstored.
Defined.

(** X23: a download whose id is already stored starts like any other:
    [downloadResource] is fulfilled and the interval runs for twenty
    firings; the stored record stays as it was until the twentieth firing,
    which overwrites it with the finished download. *)
Theorem download_with_a_stored_id_overwrites_it (app : App.App) (now rid : N)
    (resource : Resource) (old : DownloadData) (k : nat) :
  App.find_resource rid (App.resources app) = Some resource →
  downloads (App.db app) !! now = Some old →
  let h := length (App.heap app) in
  let app' := App.ticks k h (fst (App.downloadResource now rid app)) in
  snd (App.downloadResource now rid app) = Fulfilled tt ∧
  (h ∈ App.intervals app' ↔ (k < 20)%nat) ∧
  downloads (App.db app') !! now =
    Some (if (k <? 20)%nat then old
          else mkDownloadData resource.1 (title resource.2) 100).
Proof.
  intros Hfind Hold h app'. subst app'.
  rewrite (downloadResource_run _ _ _ _ Hfind), Hold. cbn [fst snd]. fold h.
  split; [done|].
  set (app1 := App.mkApp _ _ _ _ _).
  assert (Hh : h ∈ App.intervals app1) by (simpl; apply elem_of_app; right; by left).
  assert (Hobj : App.heap app1 !! h =
                 Some (now, mkDownloadData resource.1 (title resource.2) 0)).
  { simpl. by rewrite lookup_app_r, Nat.sub_diag by done. }
  destruct (decide (k < 20)%nat) as [Hk|Hk].
  - destruct (ticks_running k h app1 _ _ _ _ Hh Hobj ltac:(lia)) as (_ & H2 & H3 & _).
    rewrite H2, H3. split; [done|].
    by destruct (Nat.ltb_spec k 20) as [_|?]; [|lia].
  - replace k with (19 + (1 + (k - 20)))%nat by lia.
    rewrite (ticks_add 19), (ticks_add 1).
    destruct (ticks_running 19 h app1 _ _ _ _ Hh Hobj ltac:(lia)) as (H1 & H2 & H3 & _).
    remember (App.ticks 19 h app1) as app19 eqn:E19. clear E19.
    destruct (tick_final h app19 _ _ _ _ ltac:(by rewrite H2) H1 ltac:(lia))
      as (F1 & F2 & F3 & _).
    change (App.ticks 1 h app19) with (fst (App.tick h app19)).
    rewrite ticks_idle by done. split.
    + split; [done|lia].
    + destruct (Nat.ltb_spec (19 + (1 + (k - 20))) 20) as [?|_]; [lia|].
      rewrite F3. simpl. by rewrite lookup_insert_eq.
Qed.

Lemma download_with_a_stored_id_overwrites_it_witness :
  App.find_resource 1 (App.resources Scenarios.library) = Some Scenarios.formula_sheet ∧
  downloads (App.db Scenarios.library) !! 1700000000000%N
  = Some (mkDownloadData 1 "Physics Formula Sheet" 100) ∧
  snd (App.downloadResource 1700000000000 1 Scenarios.library) = Fulfilled tt ∧
  (0%nat ∈ App.intervals (App.ticks 7 0 (fst (App.downloadResource 1700000000000 1
                                                 Scenarios.library)))
   ↔ (7 < 20)%nat).
Proof.
  split; [reflexivity|]. split; [reflexivity|].
  destruct (download_with_a_stored_id_overwrites_it Scenarios.library 1700000000000 1
              Scenarios.formula_sheet (mkDownloadData 1 "Physics Formula Sheet" 100) 7
              eq_refl eq_refl) as (Hrun & Hruns & _).
  split; [exact Hrun|exact Hruns].
Defined.

(** X24: clearing the user's data while a download runs empties the
    database and the list; when the download completes its record is stored
    again, and the list stays empty. *)
Theorem clearing_during_a_download_brings_it_back (app : App.App) (now rid : N)
    (resource : Resource) (j : nat) :
  App.find_resource rid (App.resources app) = Some resource →
  downloads (App.db app) !! now = None →
  (j < 20)%nat →
  let h := length (App.heap app) in
  let cleared :=
    fst (App.clearUserData true (App.ticks j h (fst (App.downloadResource now rid app)))) in
  let finished := App.ticks (20 - j) h cleared in
  App.db cleared = empty_db ∧ App.downloads cleared = [] ∧
  App.db finished =
    set_downloads {[ now := mkDownloadData resource.1 (title resource.2) 100 ]} empty_db ∧
  App.downloads finished = [].
Proof.
  intros Hfind Hfresh Hj h cleared finished. subst finished cleared.
  rewrite (downloadResource_started _ _ _ _ Hfind Hfresh). cbn [fst]. fold h.
  set (app1 := App.mkApp _ _ _ _ _).
  assert (Hh : h ∈ App.intervals app1) by (simpl; apply elem_of_app; right; by left).
  assert (Hobj : App.heap app1 !! h =
                 Some (now, mkDownloadData resource.1 (title resource.2) 0)).
  { simpl. by rewrite lookup_app_r, Nat.sub_diag by done. }
  destruct (ticks_running j h app1 _ _ _ _ Hh Hobj ltac:(lia)) as (H1 & H2 & _).
  remember (App.ticks j h app1) as appj eqn:Ej. clear Ej.
  set (cleared := fst (App.clearUserData true appj)).
  assert (Hc : cleared = App.mkApp (App.resources appj) (App.heap appj) []
                                   (App.intervals appj) empty_db).
  { unfold cleared, App.clearUserData, catch_, then_, App.storage.
    by rewrite clearAllData_run. }
  rewrite Hc. simpl. split; [done|]. split; [done|].
  set (c := App.mkApp _ _ _ _ _).
  replace (20 - j)%nat with ((19 - j) + 1)%nat by lia. rewrite ticks_add.
  destruct (ticks_running (19 - j) h c _ _ _ _ ltac:(by simpl; rewrite H2) H1 ltac:(lia))
    as (G1 & G2 & G3 & G4 & _).
  remember (App.ticks (19 - j) h c) as c19 eqn:E19. clear E19.
  destruct (tick_final h c19 _ _ _ _ ltac:(by rewrite G2; simpl; rewrite H2) G1 ltac:(lia))
    as (F1 & F2 & F3 & F4 & _).
  change (App.ticks 1 h c19) with (fst (App.tick h c19)).
  rewrite F3, F4, G3, G4. done.
Qed.

Lemma clearing_during_a_download_brings_it_back_witness :
  App.find_resource 1 (App.resources Scenarios.library) = Some Scenarios.formula_sheet ∧
  downloads (App.db Scenarios.library) !! 1700000000500%N = None ∧
  (7 < 20)%nat ∧
  App.db (App.ticks (20 - 7) 0
            (fst (App.clearUserData true
                    (App.ticks 7 0 (fst (App.downloadResource 1700000000500 1
                                           Scenarios.library))))))
  = set_downloads {[ 1700000000500%N := mkDownloadData 1 "Physics Formula Sheet" 100 ]}
                  empty_db.
Proof.
  assert (7 < 20)%nat as Hj by lia.
  split; [reflexivity|]. split; [reflexivity|]. split; [exact Hj|].
  destruct (clearing_during_a_download_brings_it_back Scenarios.library 1700000000500 1
              Scenarios.formula_sheet 7 eq_refl eq_refl Hj) as (_ & _ & Hback & _).
  exact Hback.
Defined.

(** ** The viewer *)

Section Viewer.
Import PDFViewer.
Local Open Scope Z_scope.

Lemma act_in_document n a v :
  in_document n v → ∃ v', act a v = inr v' ∧ in_document n v'.
Proof.
  destruct v as [d c r q f s]. unfold in_document, within. simpl.
  intros (-> & Hc & Hq & Hf & Hs).
  destruct a as [| |p| |ok]; simpl;
    unfold previousPage, nextPage, goToPage, zoom, queueRenderPage, renderPage_settle,
      renderPage_begin; simpl;
    repeat (case_match; simpl in *); eexists; (split; [reflexivity|]); simpl;
    split_and!; try done; try lia; intros; simplify_eq; eauto; try lia.
Qed.

Lemma acts_in_document n l : ∀ v,
  in_document n v → ∃ v', acts l v = inr v' ∧ in_document n v'.
Proof.
  induction l as [|a l IH]; intros v Hv; simpl; [by eexists|].
  destruct (act_in_document n a v Hv) as (v1 & -> & Hv1). by apply IH.
Qed.

Lemma loaded_in_document n : 1 ≤ n → in_document n (loaded n new_viewer).
Proof.
  intros Hn. unfold in_document, within. simpl.
  split_and!; try done; try lia; intros; simplify_eq; lia.
Qed.

(** X25: once a document of [n] pages is loaded into a new viewer, no
    sequence of clicks on the Previous, Next and zoom buttons and of
    settled renders throws, leaves the pages 1..n, or asks for the render
    of a page outside them. *)
Theorem navigation_stays_within_the_document (n : Z) (l : list Action) :
  1 ≤ n → forallb wired l = true →
  ∃ v, acts l (loaded n new_viewer) = inr v ∧
       pdfDoc v = Some n ∧ 1 ≤ currentPage v ≤ n ∧
       ∀ p, inFlight v = Some p → 1 ≤ p ≤ n.
Proof.
  intros Hn _.
  destruct (acts_in_document n l _ (loaded_in_document n Hn)) as (v & Hv & Hd & Hc & _ & Hf & _).
  by exists v.
Qed.

Lemma navigation_stays_within_the_document_witness :
  1 ≤ 3 ∧
  forallb wired [NextPage; RenderSettled true; Zoom; NextPage; NextPage; PreviousPage] = true ∧
  ∃ v, acts [NextPage; RenderSettled true; Zoom; NextPage; NextPage; PreviousPage]
            (loaded 3 new_viewer)
       = inr v ∧ 1 ≤ currentPage v ≤ 3.
Proof.
  assert (1 ≤ 3) as Hn by lia.
  split; [exact Hn|]. split; [reflexivity|].
  destruct (navigation_stays_within_the_document 3
              [NextPage; RenderSettled true; Zoom; NextPage; NextPage; PreviousPage]
              Hn eq_refl)
    as (v & Hv & _ & Hc & _).
  exists v. split; [exact Hv|exact Hc].
Defined.





(** X27: a page left in the queue is rendered after the next page
    change: the viewer ends on the page after the current one while showing
    the queued page. *)
Theorem stale_queue_entry_is_rendered_later (v : Viewer) (n q : Z) :
  pdfDoc v = Some n → isRendering v = false → pageRenderingQueue v = Some q →
  currentPage v < n → q ≠ currentPage v + 1 →
  ∃ v', acts [NextPage; RenderSettled true; RenderSettled true] v = inr v' ∧
        currentPage v' = currentPage v + 1 ∧ rendered v' = Some q ∧
        isRendering v' = false ∧ pageRenderingQueue v' = None.
Proof.
  destruct v as [d c r qu f s]. simpl. intros -> -> -> Hc Hq.
  unfold nextPage. simpl.
  destruct (Z.leb_spec n c) as [?|_]; [lia|]. simpl.
  unfold renderPage_settle, queueRenderPage, renderPage_begin. simpl.
  rewrite bool_decide_eq_true_2 by done. simpl.
  eexists. split; [reflexivity|]. done.
Qed.

Lemma stale_queue_entry_is_rendered_later_witness :
  pdfDoc Scenarios.turned = Some 3 ∧ isRendering Scenarios.turned = false ∧
  pageRenderingQueue Scenarios.turned = Some 2 ∧
  currentPage Scenarios.turned < 3 ∧ 2 ≠ currentPage Scenarios.turned + 1 ∧
  ∃ v', acts [NextPage; RenderSettled true; RenderSettled true] Scenarios.turned = inr v' ∧
        currentPage v' = currentPage Scenarios.turned + 1 ∧ rendered v' = Some 2.
Proof.
  assert (currentPage Scenarios.turned < 3) as Hlast by reflexivity.
  assert (2 ≠ currentPage Scenarios.turned + 1) as Hq by (by vm_compute).
  split; [reflexivity|]. split; [reflexivity|]. split; [reflexivity|].
  split; [exact Hlast|]. split; [exact Hq|].
  destruct (stale_queue_entry_is_rendered_later Scenarios.turned 3 2
              eq_refl eq_refl eq_refl Hlast Hq) as (v' & Hv & Hpage & Hshown & _).
  exists v'. split; [exact Hv|]. split; [exact Hpage|exact Hshown].
Defined.

(** X28: without a document the Next button throws a TypeError, reading
    [numPages] of [null]; the Previous button and the zoom buttons never
    throw, and none of them starts a render. *)
Theorem navigation_without_a_document (v : Viewer) :
  pdfDoc v = None →
  nextPage v = inl TypeError ∧
  (∃ v', previousPage v = inr v' ∧ inFlight v' = inFlight v ∧
         isRendering v' = isRendering v) ∧
  inFlight (zoom v) = inFlight v ∧ isRendering (zoom v) = isRendering v.
Proof.
  destruct v as [d c r q f s]. simpl. intros ->.
  unfold nextPage, previousPage, zoom, queueRenderPage, renderPage_begin. simpl.
  split; [done|]. split.
  - destruct (c <=? 1), r; by eexists.
  - by destruct r.
Qed.

Lemma navigation_without_a_document_witness :
  pdfDoc new_viewer = None ∧
  nextPage new_viewer = inl TypeError ∧
  previousPage new_viewer = inr new_viewer.
Proof.
  split; [reflexivity|].
  destruct (navigation_without_a_document new_viewer eq_refl) as (Hnext & _).
  split; [exact Hnext|reflexivity].
Defined.

End Viewer.

(** ** Helpers *)

Section RemoveDuplicates.
Context {A K : Type} `{Countable K} (key : A → K).
Import Utils.

Lemma filter_unseen_fresh seen array x :
  x ∈ filter_unseen key seen array → (key x ∉ seen) ∧ x ∈ array.
Proof.
  revert seen. induction array as [|item rest IH]; intros seen; simpl; [by intros ?%elem_of_nil|].
  destruct (decide (key item ∈ seen)) as [Hin|Hin].
  - intros Hx. destruct (IH _ Hx). split; [done|by right].
  - intros [->|Hx]%elem_of_cons; [split; [done|by left]|].
    destruct (IH _ Hx) as [Hfresh ?]. split; [|by right].
    intros ?. by apply Hfresh, elem_of_union_r.
Qed.

Lemma filter_unseen_NoDup seen array : NoDup (key <$> filter_unseen key seen array).
Proof.
  revert seen. induction array as [|item rest IH]; intros seen; simpl; [constructor|].
  destruct (decide (key item ∈ seen)); [apply IH|].
  rewrite fmap_cons. constructor; [|apply IH].
  intros (y & Hy & Hin)%list_elem_of_fmap.
  apply filter_unseen_fresh in Hin as [Hin _]. set_solver.
Qed.

Lemma filter_unseen_sublist seen array : filter_unseen key seen array `sublist_of` array.
Proof.
  revert seen. induction array as [|item rest IH]; intros seen; simpl; [done|].
  destruct (decide (key item ∈ seen)); [by apply sublist_cons|by apply sublist_skip].
Qed.

Lemma filter_unseen_covers seen array x :
  x ∈ array → key x ∈ seen ∨ key x ∈ key <$> filter_unseen key seen array.
Proof.
  revert seen. induction array as [|item rest IH]; intros seen; simpl; [by intros ?%elem_of_nil|].
  intros [->|Hx]%elem_of_cons.
  - destruct (decide (key item ∈ seen)); [by left|right].
    rewrite fmap_cons. by left.
  - destruct (decide (key item ∈ seen)); [by apply IH|].
    destruct (IH ({[key item]} ∪ seen) Hx) as [Hs|Hr].
    + apply elem_of_union in Hs as [->%elem_of_singleton|Hs]; [|by left].
      right. rewrite fmap_cons. by left.
    + right. rewrite fmap_cons. by right.
Qed.

Lemma filter_unseen_app seen l1 l2 :
  filter_unseen key seen (l1 ++ l2) =
    filter_unseen key seen l1 ++ filter_unseen key (list_to_set (key <$> l1) ∪ seen) l2.
Proof.
  revert seen. induction l1 as [|item rest IH]; intros seen; simpl.
  - f_equal. by rewrite (left_id_L ∅ (∪)).
  - destruct (decide (key item ∈ seen)) as [Hin|Hin].
    + rewrite IH. do 2 f_equal. apply set_eq. intros y.
      rewrite !elem_of_union, elem_of_singleton. intuition (subst; auto).
    + simpl. rewrite IH. do 3 f_equal. apply set_eq. intros y.
      rewrite !elem_of_union, elem_of_singleton. intuition (subst; auto).
Qed.

Lemma filter_unseen_id seen array :
  NoDup (key <$> array) → (∀ x, x ∈ array → key x ∉ seen) →
  filter_unseen key seen array = array.
Proof.
  revert seen. induction array as [|item rest IH]; intros seen; simpl; [done|].
  rewrite NoDup_cons. intros [Hhead Hrest] Hseen.
  destruct (decide (key item ∈ seen)) as [Hin|_].
  - destruct (Hseen item); [by left|done].
  - f_equal. apply IH; [done|].
    intros x Hx Hin. apply elem_of_union in Hin as [Heq%elem_of_singleton|Hs].
    + apply Hhead. rewrite <- Heq. apply list_elem_of_fmap. eauto.
    + by apply (Hseen x); [right|].
Qed.

(** X29: [removeDuplicates] returns a sub-list of the array in which no
    two items have the same key and every key of the array still occurs;
    the item kept for a key is the first one with it, and removing
    duplicates twice is removing them once. *)
Theorem removeDuplicates_keeps_first_of_each_key (array : list A) :
  let result := removeDuplicates key array in
  NoDup (key <$> result) ∧
  result `sublist_of` array ∧
  (∀ x, x ∈ array → key x ∈ key <$> result) ∧
  (∀ pre x post, array = pre ++ x :: post → key x ∉ key <$> pre →
     ∃ post', result = removeDuplicates key pre ++ x :: post') ∧
  removeDuplicates key result = result.
Proof.
  unfold removeDuplicates. simpl. split_and!.
  - apply filter_unseen_NoDup.
  - apply filter_unseen_sublist.
  - intros x Hx. by destruct (filter_unseen_covers ∅ array x Hx) as [?%elem_of_empty|?].
  - intros pre x post -> Hx. rewrite filter_unseen_app. simpl.
    destruct (decide _) as [Hin|_]; [|by eexists].
    apply elem_of_union in Hin as [Hin%elem_of_list_to_set|?%elem_of_empty]; done.
  - apply filter_unseen_id; [apply filter_unseen_NoDup|].
    intros x _. apply not_elem_of_empty.
Qed.

End RemoveDuplicates.

Section FileExtension.
Import Utils.
Local Open Scope Z_scope.

(** [s.includes(".")] one character at a time *)
Lemma includes_dot_cons x s :
  includes (String x s) "." = Ascii.eqb x dot || includes s ".".
Proof.
  cbn [includes String.prefix]. change (Ascii.Ascii _ _ _ _ _ _ _ _) with dot.
  destruct (Ascii.ascii_dec dot x) as [<-|Hne].
  - rewrite Ascii.eqb_refl. by destruct s.
  - by destruct (Ascii.eqb_spec x dot) as [->|_].
Qed.

Lemma lastIndexOf_from_absent s : ∀ i found,
  includes s "." = false → lastIndexOf_from i found s dot = found.
Proof.
  induction s as [|x s IH]; intros i found; [done|].
  rewrite includes_dot_cons. intros [Hx Hs]%orb_false_iff.
  cbn [lastIndexOf_from]. rewrite Hx. by apply IH.
Qed.

Lemma append_empty s : "" +:+ s = s.
Proof. reflexivity. Qed.

Lemma append_String x pre s : String x pre +:+ s = String x (pre +:+ s).
Proof. reflexivity. Qed.

Lemma lastIndexOf_from_last pre post : ∀ i found,
  includes post "." = false →
  lastIndexOf_from i found (pre +:+ String dot post) dot = i + Z.of_nat (String.length pre).
Proof.
  induction pre as [|x pre IH]; intros i found Hpost.
  - rewrite append_empty. cbn [lastIndexOf_from String.length].
    rewrite Ascii.eqb_refl, lastIndexOf_from_absent by done. lia.
  - rewrite append_String. cbn [lastIndexOf_from String.length]. rewrite IH by done. lia.
Qed.

Lemma slice_beyond s : ∀ start,
  (N.of_nat (String.length s) ≤ start)%N → slice start s = "".
Proof.
  induction s as [|x s IH]; intros start Hs; [done|].
  simpl in *. destruct (N.eqb_spec start 0) as [->|?]; [lia|].
  apply IH. lia.
Qed.

Lemma slice_after pre c post :
  slice (N.of_nat (String.length pre) + 1) (pre +:+ String c post) = post.
Proof.
  induction pre as [|x pre IH].
  - rewrite append_empty. simpl. by destruct post.
  - rewrite append_String. cbn [String.length slice].
    destruct (N.eqb_spec (N.of_nat (S (String.length pre)) + 1) 0) as [?|_]; [lia|].
    rewrite <- IH at 2. f_equal. lia.
Qed.

Lemma length_app_dot pre post :
  String.length (pre +:+ String dot post) = (String.length pre + S (String.length post))%nat.
Proof.
  induction pre as [|x pre IH]; [done|].
  rewrite append_String. simpl. by rewrite IH.
Qed.

(** X30: for a file name of fewer than 2^32 characters
    [getFileExtension] returns the text after the last dot, and the empty
    string when the name has no dot or its last dot is its first
    character. *)
Theorem getFileExtension_is_the_text_after_the_last_dot (filename : string) :
  Z.of_nat (String.length filename) < 2 ^ 32 →
  (includes filename "." = false → getFileExtension filename = "") ∧
  (∀ pre post, filename = pre +:+ String dot post → includes post "." = false →
     getFileExtension filename = if decide (pre = "") then "" else post).
Proof.
  intros Hlen. unfold getFileExtension, lastIndexOf, to_uint32. split.
  - intros Hno. rewrite lastIndexOf_from_absent by done.
    apply slice_beyond.
    replace ((-1 - 1) mod 2 ^ 32) with 4294967294 by reflexivity. lia.
  - intros pre post -> Hpost. rewrite lastIndexOf_from_last by done.
    rewrite length_app_dot in Hlen.
    destruct (decide (pre = "")) as [->|Hpre].
    + apply slice_beyond. rewrite length_app_dot. cbn [String.length] in *.
      replace ((0 + Z.of_nat 0 - 1) mod 2 ^ 32) with 4294967295 by reflexivity. lia.
    + assert (1 ≤ Z.of_nat (String.length pre)) by (destruct pre; [done|simpl; lia]).
      rewrite Z.mod_small by lia.
      replace (Z.to_N (0 + Z.of_nat (String.length pre) - 1 + 2))
        with (N.of_nat (String.length pre) + 1)%N by lia.
      apply slice_after.
Qed.

Lemma getFileExtension_is_the_text_after_the_last_dot_witness :
  Z.of_nat (String.length "notes.tar.gz") < 2 ^ 32 ∧
  getFileExtension "notes.tar.gz" = "gz".
Proof.
  assert (Z.of_nat (String.length "notes.tar.gz") < 2 ^ 32) as Hlen by reflexivity.
  split; [exact Hlen|].
  destruct (getFileExtension_is_the_text_after_the_last_dot "notes.tar.gz" Hlen)
    as [_ Hlast].
  exact (Hlast "notes.tar" "gz" eq_refl eq_refl).
Defined.

End FileExtension.
